(** * setImmediate.js: a shallow embedding and its properties

    The file [src/setImmediate.js] installs [setImmediate] and
    [clearImmediate] on the global object of a JavaScript host.  It is
    made of a task registry ([tasks]), three capability probes, four
    installers and the install block that chooses among them.

    The embedding follows the file top to bottom.  The registry is a
    record holding [nextHandle] and [tasksByHandle]; the latter is a
    JavaScript object used as a map, so its keys are property names
    (strings) and a numeric handle reaches it through [ToString].  Code
    that mutates the registry, calls the host or may throw lives in a
    state-and-exception monad [M].  Caller-supplied functions cannot be
    stored as Rocq functions on the state they modify; they are function
    identities whose body, given by the [Page], is a finite [script] that
    ends by returning or throwing.  Code of the page reaches the registry
    through the installed facade only; text given as a handler is
    evaluated by the [eval] in [Task.prototype.run], inside the closure,
    and may read and write the registry's variables as well. *)

From Stdlib Require Import Ascii.
From stdpp Require Import gmap strings list fin_maps pretty list_numbers.

Local Open Scope string_scope.
Local Open Scope list_scope.
Local Open Scope Z_scope.

(** ** Values *)

(** The three installers that go through the registry. *)
Inductive adapter :=
  | MessageChannelAdapter
  | PostMessageAdapter
  | SetTimeoutAdapter.

(** Function objects: the caller's own, the host's, and the closures this
    file creates. *)
Inductive fn :=
  | UserFn (id : N)
  | HostFn (name : string)
  | SetImmediateVia (a : adapter)
  | TasksRemove
  | OnGlobalMessage
  | ProbeListener.

(** Numbers are the integers: the only arithmetic of the file is
    [nextHandle++], and on the integers a page can count through both the
    increment and [ToString] (the decimal numeral) are exact. *)
Inductive value :=
  | VUndefined
  | VNull
  | VBool (b : bool)
  | VNum (n : Z)
  | VStr (s : string)
  | VFun (f : fn).

#[global] Instance adapter_eq_dec : EqDecision adapter.
Proof. solve_decision. Defined.
#[global] Instance fn_eq_dec : EqDecision fn.
Proof. solve_decision. Defined.
#[global] Instance value_eq_dec : EqDecision value.
Proof. solve_decision. Defined.

(** [ToBoolean]. *)
Definition truthy (v : value) : bool :=
  match v with
  | VUndefined | VNull => false
  | VBool b => b
  | VNum n => negb (n =? 0)
  | VStr s => negb (String.eqb s "")
  | VFun _ => true
  end.

(** What can be called: a call of anything else throws a [TypeError]. *)
Definition callable (v : value) : bool :=
  match v with
  | VFun _ => true
  | _ => false
  end.

(** [s.substring(start, end)]: both indices are clamped to the length and
    swapped when out of order; [s.substring(start)] runs to the end. *)
Definition js_substring (s : string) (start finish : nat) : string :=
  let a := Nat.min start (String.length s) in
  let b := Nat.min finish (String.length s) in
  String.substring (Nat.min a b) (Nat.max a b - Nat.min a b) s.

Definition js_substring_from (s : string) (start : nat) : string :=
  js_substring s start (String.length s).

(** ** State, events and the monad *)

(** [new Task(handler, args)]: the handler and a copy of the arguments. *)
Record Task := { handler : value; args : list value }.

(** The two variables of the closure [tasks].  [tasksByHandle] is an
    object used as a map: its entries sit under the property name of the
    handle, and a name it has no entry for is looked up in
    [Object.prototype] (see [runIfPresent]). *)
Record registry := {
  nextHandle : Z;
  tasksByHandle : gmap string Task
}.

(** What the registry and the adapters do to the outside: invocations of
    callbacks, and the triggers armed on the host. *)
Inductive event :=
  | Applied (f : fn) (this : value) (arguments : list value)
  | Evaled (scriptSource : string)
  | ChannelPosted (handle : Z)
  | MessagePosted (data : value) (targetOrigin : string)
  | TimeoutSet (handle : Z) (delay : Z).

(** A message event, as far as the listener looks at it. *)
Inductive window := ThisGlobal | OtherWindow (id : N).

Record message_event := { source : window; data : value }.

#[global] Instance window_eq_dec : EqDecision window.
Proof. solve_decision. Defined.

Record world := {
  tasks : registry;
  trace : list event
}.

Inductive result (A : Type) :=
  | Ok (a : A)
  | Thrown (e : value).
Arguments Ok {A} a.
Arguments Thrown {A} e.

Definition M (A : Type) : Type := world -> result A * world.

Definition ret {A} (a : A) : M A := fun w => (Ok a, w).
Definition throw {A} (e : value) : M A := fun w => (Thrown e, w).
Definition bind {A B} (m : M A) (k : A -> M B) : M B :=
  fun w =>
    match m w with
    | (Ok a, w') => k a w'
    | (Thrown e, w') => (Thrown e, w')
    end.

Notation "x <- m ;; k" := (bind m (fun x => k))
  (at level 100, m at next level, right associativity).
Notation "m ;; k" := (bind m (fun _ => k))
  (at level 100, right associativity).

Definition emit (e : event) : M unit :=
  fun w => (Ok tt, {| tasks := tasks w; trace := trace w ++ [e] |}).

Definition invocation (e : event) : bool :=
  match e with
  | Applied _ _ _ | Evaled _ => true
  | _ => false
  end.

(** Number of callback executions recorded so far. *)
Definition executions (w : world) : nat :=
  length (filter (fun e => invocation e = true) (trace w)).

Definition fresh : world :=
  {| tasks := {| nextHandle := 1; tasksByHandle := ∅ |}; trace := [] |}.

(** ** Scripts: what a callback does *)

(** Code of the page reaches the registry only through the facade: it may
    schedule (and learn the handle), cancel, and in the end return or
    throw.  Code evaluated inside the closure of the registry (the text
    handed to [eval], and any function such text has created) can do
    more: [Inside f k] reads the registry and leaves it as [f] says, with
    whatever calls it made on the way recorded as events, and goes on as
    [k] of the registry it found.  Such code is taken to act on the two
    variables of the registry; replacing the functions of the file
    themselves is not described: the properties below are about the
    functions as the file defines them. *)
Inductive script :=
  | Return
  | Throw (e : value)
  | CallSetImmediate (args : list value) (k : Z -> script)
  | CallClearImmediate (handle : value) (k : script)
  | Inside (f : registry -> list event * registry) (k : registry -> script).

(** The page in which the file runs. *)
Class Page := {
  (** the adapter bound to the facade for the lifetime of the page *)
  installed : adapter;
  (** body of a function object applied to an argument list *)
  body : fn -> list value -> script;
  (** effect of the [eval] in [Task.prototype.run] on a source text, with
      the task as [this] *)
  eval : string -> Task -> script;
  (** the property names under which [Object.prototype] holds a (truthy)
      value: an object literal used as a map finds them too *)
  inherited : string -> bool;
  (** [ToString] of a function object *)
  source_text : fn -> string;
  (** [ToString(Math.random())] as drawn by installPostMessageImplementation *)
  random : string
}.

(** The error of calling what is not a function. *)
Definition TypeError : value := VStr "TypeError".

Section Registry.
Context {page : Page}.

(** [ToString]. *)
Definition to_string (v : value) : string :=
  match v with
  | VUndefined => "undefined"
  | VNull => "null"
  | VBool true => "true"
  | VBool false => "false"
  | VNum n => pretty n
  | VStr s => s
  | VFun f => source_text f
  end.

(** The property name under which [tasksByHandle[handle]] looks. *)
Definition to_key (handle : value) : string := to_string handle.

(** *** tasks *)

Definition addFromSetImmediateArguments (arguments : list value) : M Z :=
  fun w =>
    let handler := default VUndefined (head arguments) in
    let argsToHandle := tail arguments in
    let task := {| handler := handler; args := argsToHandle |} in
    let thisHandle := nextHandle (tasks w) in
    (Ok thisHandle,
     {| tasks := {| nextHandle := thisHandle + 1;
                    tasksByHandle :=
                      <[to_key (VNum thisHandle) := task]>
                        (tasksByHandle (tasks w)) |};
        trace := trace w |}).

(** The statement [delete tasksByHandle[handle]]: deleting a property
    the object does not have leaves it as it is. *)
Definition delete_tasksByHandle (handle : value) : M unit :=
  fun w =>
    (Ok tt,
     {| tasks := {| nextHandle := nextHandle (tasks w);
                    tasksByHandle :=
                      delete (to_key handle) (tasksByHandle (tasks w)) |};
        trace := trace w |}).

Definition remove (handle : value) : M unit :=
  delete_tasksByHandle handle.

(** *** The [setImmediate] closures of the three installers *)

Definition MESSAGE_PREFIX : string :=
  "com.bn.NobleJS.setImmediate" +:+ random.

Definition setImmediate_via (a : adapter) (arguments : list value) : M Z :=
  match a with
  | MessageChannelAdapter =>
      handle <- addFromSetImmediateArguments arguments ;;
      emit (ChannelPosted handle) ;;
      ret handle
  | PostMessageAdapter =>
      handle <- addFromSetImmediateArguments arguments ;;
      emit (MessagePosted
              (VStr (MESSAGE_PREFIX +:+ to_string (VNum handle))) "*") ;;
      ret handle
  | SetTimeoutAdapter =>
      handle <- addFromSetImmediateArguments arguments ;;
      emit (TimeoutSet handle 0) ;;
      ret handle
  end.

Definition setImmediate : list value -> M Z := setImmediate_via installed.
Definition clearImmediate : value -> M unit := remove.

(** *** Running a callback's script *)

Fixpoint run_script (s : script) : M unit :=
  match s with
  | Return => ret tt
  | Throw e => throw e
  | CallSetImmediate arguments k =>
      handle <- setImmediate arguments ;; run_script (k handle)
  | CallClearImmediate handle k =>
      clearImmediate handle ;; run_script k
  | Inside f k =>
      fun w =>
        run_script (k (tasks w))
          {| tasks := snd (f (tasks w));
             trace := trace w ++ fst (f (tasks w)) |}
  end.

(** [Task.prototype.run] *)
Definition run (this : Task) : M unit :=
  match handler this with
  | VFun f =>
      emit (Applied f VUndefined (args this)) ;;
      run_script (body f (args this))
  | h =>
      let scriptSource := "" +:+ to_string h in
      emit (Evaled scriptSource) ;;
      run_script (eval scriptSource this)
  end.

(** [tasksByHandle[handle]] finds the entry stored under the name, or
    else what [Object.prototype] has under it; such a value is truthy and
    has no [run] method, so the call [task.run()] throws. *)
Definition runIfPresent (handle : value) : M unit :=
  fun w =>
    match tasksByHandle (tasks w) !! to_key handle with
    | Some task =>
        (run task ;;
         delete_tasksByHandle handle) w
    | None =>
        if inherited (to_key handle) then (Thrown TypeError, w)
        else (Ok tt, w)
    end.

(** *** The listener of installPostMessageImplementation *)

Definition isStringAndStartsWith (v : value) (putativeStart : string)
  : bool :=
  match v with
  | VStr s =>
      String.eqb (js_substring s 0 (String.length putativeStart))
                 putativeStart
  | _ => false
  end.

Definition onGlobalMessage (event : message_event) : M unit :=
  if bool_decide (source event = ThisGlobal)
     && isStringAndStartsWith (data event) MESSAGE_PREFIX
  then
    match data event with
    | VStr s =>
        let handle := js_substring_from s (String.length MESSAGE_PREFIX) in
        runIfPresent (VStr handle)
    | _ => ret tt
    end
  else ret tt.

(** *** Turns of the event loop

    Between two turns anything the page and the host can do to the
    registry may happen: a call of the facade, a channel or timer
    trigger firing for some handle, a message event reaching the
    listener.  An exception that escapes a turn goes to the host's
    error reporting and the next turn starts from the state it left. *)
Inductive turn :=
  | Schedule (arguments : list value)
  | Cancel (handle : value)
  | Fire (handle : Z)
  | Deliver (event : message_event).

Definition turn_step (w : world) (t : turn) : world :=
  match t with
  | Schedule arguments => snd (setImmediate arguments w)
  | Cancel handle => snd (clearImmediate handle w)
  | Fire handle => snd (runIfPresent (VNum handle) w)
  | Deliver event => snd (onGlobalMessage event w)
  end.

Definition play (ts : list turn) (w : world) : world :=
  foldl turn_step w ts.

(** Scheduling one task after the other, collecting the handles. *)
Fixpoint schedule_all (calls : list (list value)) : M (list Z) :=
  match calls with
  | [] => ret []
  | arguments :: rest =>
      handle <- setImmediate arguments ;;
      handles <- schedule_all rest ;;
      ret (handle :: handles)
  end.

End Registry.

(** ** The host and the install block

    The host is seen through its global object: the properties of the
    object itself, those it reaches through its prototype, and the host
    primitives the file calls.  Those primitives are opaque capabilities:
    where the file tests one and then calls it, the call succeeds;
    [attachEvent], which it calls without a test, may be missing or not
    be a function. *)

Inductive delivery := Synchronous | Asynchronous.

#[global] Instance delivery_eq_dec : EqDecision delivery.
Proof. solve_decision. Defined.

Record Host := {
  (** own properties of [global] *)
  own : gmap string value;
  (** properties of [Object.getPrototypeOf(global)] *)
  prototype : gmap string value;
  (** [typeof Object.getPrototypeOf === "function"] *)
  getPrototypeOf_is_function : bool;
  (** whether [global.postMessage] runs the handlers before it returns *)
  postMessage_delivery : delivery;
  (** messages handed to the host and not yet delivered *)
  posted : list (value * string);
  (** listeners registered so far: primitive used, event name, listener *)
  listeners : list (string * string * fn)
}.

(** The object the install block assigns to. *)
Inductive target := OnPrototype | OnGlobal.

#[global] Instance target_eq_dec : EqDecision target.
Proof. solve_decision. Defined.

(** [global.p] *)
Definition get (g : Host) (p : string) : value :=
  match own g !! p with
  | Some v => v
  | None => default VUndefined (prototype g !! p)
  end.

(** [t.p] for the attach target [t] *)
Definition read (t : target) (g : Host) (p : string) : value :=
  match t with
  | OnPrototype => default VUndefined (prototype g !! p)
  | OnGlobal => get g p
  end.

(** [t.p = v] *)
Definition assign (t : target) (p : string) (v : value) (g : Host) : Host :=
  match t with
  | OnPrototype =>
      {| own := own g; prototype := <[p := v]> (prototype g);
         getPrototypeOf_is_function := getPrototypeOf_is_function g;
         postMessage_delivery := postMessage_delivery g;
         posted := posted g; listeners := listeners g |}
  | OnGlobal =>
      {| own := <[p := v]> (own g); prototype := prototype g;
         getPrototypeOf_is_function := getPrototypeOf_is_function g;
         postMessage_delivery := postMessage_delivery g;
         posted := posted g; listeners := listeners g |}
  end.

(** [global.postMessage(message, targetOrigin)]: the handlers called before
    the call returns, and the host afterwards. *)
Definition global_postMessage (message : value) (targetOrigin : string)
  (g : Host) : list value * Host :=
  match postMessage_delivery g with
  | Synchronous => ([get g "onmessage"], g)
  | Asynchronous =>
      ([],
       {| own := own g; prototype := prototype g;
          getPrototypeOf_is_function := getPrototypeOf_is_function g;
          postMessage_delivery := postMessage_delivery g;
          posted := posted g ++ [(message, targetOrigin)];
          listeners := listeners g |})
  end.

(** [global.addEventListener(...)] and [global.attachEvent(...)] *)
Definition add_listener (primitive name : string) (listener : fn) (g : Host)
  : Host :=
  {| own := own g; prototype := prototype g;
     getPrototypeOf_is_function := getPrototypeOf_is_function g;
     postMessage_delivery := postMessage_delivery g;
     posted := posted g;
     listeners := listeners g ++ [(primitive, name, listener)] |}.

Definition hasMicrosoftImplementation (g : Host) : bool :=
  truthy (get g "msSetImmediate") && truthy (get g "msClearImmediate").

Definition canUseMessageChannel (g : Host) : bool :=
  truthy (get g "MessageChannel").

Definition canUsePostMessage (g : Host) : bool * Host :=
  if negb (truthy (get g "postMessage")) || truthy (get g "importScripts")
  then (false, g)
  else
    let oldOnMessage := get g "onmessage" in
    let g1 := assign OnGlobal "onmessage" (VFun ProbeListener) g in
    let '(called, g2) := global_postMessage (VStr "") "*" g1 in
    let postMessageIsAsynchronous :=
      negb (bool_decide (VFun ProbeListener ∈ called)) in
    let g3 := assign OnGlobal "onmessage" oldOnMessage g2 in
    (postMessageIsAsynchronous, g3).

Definition aliasMicrosoftImplementation (attachTo : target) (g : Host) : Host :=
  let g1 := assign attachTo "setImmediate" (get g "msSetImmediate") g in
  assign attachTo "clearImmediate" (get g1 "msClearImmediate") g1.

Definition installMessageChannelImplementation (attachTo : target) (g : Host)
  : Host :=
  assign attachTo "setImmediate" (VFun (SetImmediateVia MessageChannelAdapter)) g.

(** The listener goes through [addEventListener] when the host has it,
    and through [attachEvent] otherwise: on a host with neither, that call
    throws and the function stops before it assigns [setImmediate]. *)
Definition installPostMessageImplementation (attachTo : target) (g : Host)
  : result unit * Host :=
  if truthy (get g "addEventListener") then
    (Ok tt,
     assign attachTo "setImmediate" (VFun (SetImmediateVia PostMessageAdapter))
       (add_listener "addEventListener" "message" OnGlobalMessage g))
  else if callable (get g "attachEvent") then
    (Ok tt,
     assign attachTo "setImmediate" (VFun (SetImmediateVia PostMessageAdapter))
       (add_listener "attachEvent" "onmessage" OnGlobalMessage g))
  else (Thrown TypeError, g).

Definition installSetTimeoutImplementation (attachTo : target) (g : Host)
  : Host :=
  assign attachTo "setImmediate" (VFun (SetImmediateVia SetTimeoutAdapter)) g.

(** The object the block attaches to: the prototype of [global] when that
    is where [setTimeout] lives. *)
Definition attachTo (g : Host) : target :=
  if getPrototypeOf_is_function g
     && bool_decide (is_Some (prototype g !! "setTimeout"))
  then OnPrototype
  else OnGlobal.

(** The block at the end of the file: its outcome and the host it
    leaves.  An exception from an installer ends the block before
    [clearImmediate] is assigned. *)
Definition install_block (g : Host) : result unit * Host :=
  if negb (truthy (get g "setImmediate")) then
    let attachTo := attachTo g in
    if hasMicrosoftImplementation g then
      (Ok tt, aliasMicrosoftImplementation attachTo g)
    else
      let '(outcome, g1) :=
        if canUseMessageChannel g then
          (Ok tt, installMessageChannelImplementation attachTo g)
        else
          let '(usable, g') := canUsePostMessage g in
          if usable then installPostMessageImplementation attachTo g'
          else (Ok tt, installSetTimeoutImplementation attachTo g') in
      match outcome with
      | Ok _ => (Ok tt, assign attachTo "clearImmediate" (VFun TasksRemove) g1)
      | Thrown e => (Thrown e, g1)
      end
  else (Ok tt, g).

(** The host after the block, however it ended. *)
Definition install (g : Host) : Host := snd (install_block g).

(** A host has a native pair when both [global.setImmediate] and
    [global.clearImmediate] are there. *)
Definition has_native_pair (g : Host) : bool :=
  truthy (get g "setImmediate") && truthy (get g "clearImmediate").

(** A host on which the listener of the postMessage adapter can be
    registered: it has [addEventListener], or an [attachEvent] to call. *)
Definition can_listen (g : Host) : bool :=
  truthy (get g "addEventListener") || callable (get g "attachEvent").

(** A property of the state that a computation carries from its start to
    its end, whether it returns or throws. *)
Definition preserved (P : world -> Prop) {A} (m : M A) : Prop :=
  forall w, P w -> P (snd (m w)).

(** Every entry of the registry sits under the decimal numeral of a
    handle issued so far. *)
Definition issued_below `{Page} (w : world) : Prop :=
  1 <= nextHandle (tasks w)
  /\ forall key task,
       tasksByHandle (tasks w) !! key = Some task ->
       exists h, key = to_key (VNum h) /\ 1 <= h < nextHandle (tasks w).


(** What a task does once it is called: the body of its function, or the
    text its handler stands for, evaluated with the task as [this]. *)
Definition script_of `{Page} (t : Task) : script :=
  match handler t with
  | VFun f => body f (args t)
  | h => eval ("" +:+ to_string h) t
  end.

(** The first event of running a task: the call it makes. *)
Definition invocation_of `{Page} (t : Task) : event :=
  match handler t with
  | VFun f => Applied f VUndefined (args t)
  | h => Evaled ("" +:+ to_string h)
  end.

(** ** The host calling back

    What the installers hand to the host are closures over a handle:
    [channel.port1.onmessage] and the function given to [setTimeout] call
    [tasks.runIfPresent(handle)]; the message [global] posts to itself
    comes back to [onGlobalMessage] with [global] as its source. *)

(** The trigger an adapter arms for a handle. *)
Definition trigger_for `{Page} (a : adapter) (handle : Z) : event :=
  match a with
  | MessageChannelAdapter => ChannelPosted handle
  | PostMessageAdapter =>
      MessagePosted (VStr (MESSAGE_PREFIX +:+ to_string (VNum handle))) "*"
  | SetTimeoutAdapter => TimeoutSet handle 0
  end.

(** What happens when the host delivers an armed trigger. *)
Definition fire `{Page} (e : event) : M unit :=
  match e with
  | ChannelPosted handle => runIfPresent (VNum handle)
  | TimeoutSet handle _ => runIfPresent (VNum handle)
  | MessagePosted data _ =>
      onGlobalMessage {| source := ThisGlobal; data := data |}
  | _ => ret tt
  end.

(** The triggers armed so far, oldest first. *)
Definition triggers (w : world) : list event :=
  filter (fun e => invocation e = false) (trace w).

(** A host that delivers every armed trigger once, oldest first, while
    the page goes on calling the facade between deliveries.  The state is
    the world and the number of triggers delivered so far. *)
Inductive step :=
  | PageSchedules (arguments : list value)
  | PageCancels (handle : value)
  | HostDelivers.

Definition loop_step `{Page} (s : world * nat) (st : step) : world * nat :=
  match st with
  | PageSchedules arguments => (snd (setImmediate arguments (fst s)), snd s)
  | PageCancels handle => (snd (clearImmediate handle (fst s)), snd s)
  | HostDelivers =>
      match triggers (fst s) !! snd s with
      | Some e => (snd (fire e (fst s)), S (snd s))
      | None => s
      end
  end.

Definition event_loop `{Page} (sts : list step) : world * nat :=
  foldl loop_step (fresh, 0%nat) sts.

(** The triggers armed so far are those of the handles 1, 2, ... up to
    the last one issued, in that order, and [k] of them can have been
    delivered. *)
Definition armed_in_order `{Page} (k : nat) (w : world) : Prop :=
  1 <= nextHandle (tasks w)
  /\ Z.of_nat k <= nextHandle (tasks w) - 1
  /\ length (triggers w) = Z.to_nat (nextHandle (tasks w) - 1)
  /\ forall i e, triggers w !! i = Some e ->
                 exists a, e = trigger_for a (Z.of_nat i + 1).

(** Every pending task belongs to a handle whose trigger is not among the
    first [k]. *)
Definition pending_after `{Page} (k : nat) (w : world) : Prop :=
  forall key task,
    tasksByHandle (tasks w) !! key = Some task ->
    exists h, key = to_key (VNum h)
              /\ Z.of_nat k < h < nextHandle (tasks w).

(** A script that never throws, whatever handles it is given. *)
Fixpoint never_throws (s : script) : Prop :=
  match s with
  | Return => True
  | Throw _ => False
  | CallSetImmediate _ k => forall handle, never_throws (k handle)
  | CallClearImmediate _ k => never_throws k
  | Inside _ k => forall r, never_throws (k r)
  end.

(** A page none of whose callbacks throws. *)
Definition quiet `{Page} : Prop :=
  (forall f arguments, never_throws (body f arguments))
  /\ (forall scriptSource this, never_throws (eval scriptSource this)).

(** A script that stays outside the closure of the registry: all it does
    to the registry it does through the facade. *)
Fixpoint outside (s : script) : Prop :=
  match s with
  | Return | Throw _ => True
  | CallSetImmediate _ k => forall handle, outside (k handle)
  | CallClearImmediate _ k => outside k
  | Inside _ _ => False
  end.

(** A page that leaves the closure sealed: no function it schedules and
    no text it hands over as a handler reads or writes the variables of
    the registry. *)
Definition sealed `{Page} : Prop :=
  (forall f arguments, outside (body f arguments))
  /\ (forall scriptSource this, outside (eval scriptSource this)).

(** Number of pending tasks. *)
Definition pending (w : world) : nat := size (tasksByHandle (tasks w)).

(** ** A page to run the definitions on

    Function 1 throws, function 2 schedules function 0 with its own
    arguments and cancels it at once, every other function returns. *)
Definition demo_body (f : fn) (arguments : list value) : script :=
  match f with
  | UserFn 1 => Throw (VStr "boom")
  | UserFn 2 =>
      CallSetImmediate (VFun (UserFn 0) :: arguments)
        (fun handle => CallClearImmediate (VNum handle) Return)
  | _ => Return
  end.

(** The names every object inherits. *)
Definition Object_prototype_names : list string :=
  ["constructor"; "toString"; "toLocaleString"; "valueOf";
   "hasOwnProperty"; "isPrototypeOf"; "propertyIsEnumerable"; "__proto__"].

Definition demo_page (a : adapter) : Page :=
  {| installed := a;
     body := demo_body;
     eval := fun _ _ => Return;
     inherited := fun name => bool_decide (name ∈ Object_prototype_names);
     source_text := fun _ => "function () { [native code] }";
     random := "0.5" |}.



(** A page without a throwing callback: function 2 schedules function 0
    and cancels it at once, function 3 schedules function 0 and lets it
    run, every other function returns. *)
Definition calm_body (f : fn) (arguments : list value) : script :=
  match f with
  | UserFn 2 =>
      CallSetImmediate (VFun (UserFn 0) :: arguments)
        (fun handle => CallClearImmediate (VNum handle) Return)
  | UserFn 3 =>
      CallSetImmediate (VFun (UserFn 0) :: arguments) (fun _ => Return)
  | _ => Return
  end.

Definition calm_page (a : adapter) : Page :=
  {| installed := a;
     body := calm_body;
     eval := fun _ _ => Return;
     inherited := fun name => bool_decide (name ∈ Object_prototype_names);
     source_text := fun _ => "function () { [native code] }";
     random := "0.25" |}.

(** ** Hosts to run the install block on *)

Definition host_of (globals inherited : list (string * value)) (d : delivery)
  : Host :=
  {| own := list_to_map globals;
     prototype := list_to_map inherited;
     getPrototypeOf_is_function := true;
     postMessage_delivery := d;
     posted := [];
     listeners := [] |}.

Definition native (name : string) : string * value :=
  (name, VFun (HostFn name)).

(** Only [setTimeout]. *)
Definition timer_only_host : Host :=
  host_of [] [native "setTimeout"] Asynchronous.

(** [MessageChannel], [postMessage] and [setTimeout] together, and a
    message listener of the page's own. *)
Definition modern_host : Host :=
  host_of [("onmessage", VFun (UserFn 9))]
          [native "setTimeout"; native "postMessage";
           native "addEventListener"; native "MessageChannel"]
          Asynchronous.

(** [postMessage] and [setTimeout], and a message listener of the page's
    own. *)
Definition postMessage_host (d : delivery) : Host :=
  host_of [("onmessage", VFun (UserFn 9))]
          [native "setTimeout"; native "postMessage"; native "attachEvent"]
          d.

(** The prefixed pair of IE10, next to everything else. *)
Definition ie10_host : Host :=
  host_of []
          [native "setTimeout"; native "postMessage";
           native "addEventListener"; native "MessageChannel";
           native "msSetImmediate"; native "msClearImmediate"]
          Asynchronous.

(** A [setImmediate] of the host's own, without [clearImmediate]. *)
Definition schedule_only_host : Host :=
  host_of [native "setImmediate"] [native "setTimeout"] Asynchronous.

(** [postMessage] that delivers later, and neither [addEventListener] nor
    [attachEvent]. *)
Definition bare_postMessage_host : Host :=
  host_of [] [native "setTimeout"; native "postMessage"] Asynchronous.

(** A host whose global object has an own, empty [setImmediate] in front
    of the prototype the install block attaches to. *)
Definition shadowed_host : Host :=
  host_of [("setImmediate", VUndefined)] [native "setTimeout"] Asynchronous.

(** * Properties *)

(** ** The monad *)

Lemma bind_Ok {A B} (m : M A) (k : A -> M B) w a w' :
  m w = (Ok a, w') -> bind m k w = k a w'.
Proof. intros E. unfold bind. by rewrite E. Qed.

Lemma bind_Thrown {A B} (m : M A) (k : A -> M B) w e w' :
  m w = (Thrown e, w') -> bind m k w = (Thrown e, w').
Proof. intros E. unfold bind. by rewrite E. Qed.

Lemma preserved_ret P {A} (a : A) : preserved P (ret a).
Proof. by intros w Hw. Qed.

Lemma preserved_throw P {A} e : preserved P (@throw A e).
Proof. by intros w Hw. Qed.

Lemma preserved_bind P {A B} (m : M A) (k : A -> M B) :
  preserved P m -> (forall a, preserved P (k a)) -> preserved P (bind m k).
Proof.
  intros Hm Hk w Hw. unfold bind.
  specialize (Hm w Hw). destruct (m w) as [[a|e] w']; simpl in *.
  - by apply Hk.
  - done.
Qed.

(** ** Strings *)

Lemma length_append (p s : string) :
  String.length (p +:+ s) = (String.length p + String.length s)%nat.
Proof. induction p as [|c p IH]; simpl; [done|]. by rewrite IH. Qed.

Lemma substring_0_all (s : string) : String.substring 0 (String.length s) s = s.
Proof. induction s as [|c s IH]; simpl; [done|]. by rewrite IH. Qed.

Lemma substring_0_append (p s : string) :
  String.substring 0 (String.length p) (p +:+ s) = p.
Proof. induction p as [|c p IH]; simpl; [by destruct s|]. by rewrite IH. Qed.

Lemma substring_skip_append (p s : string) :
  String.substring (String.length p) (String.length s) (p +:+ s) = s.
Proof. induction p as [|c p IH]; simpl; [apply substring_0_all|done]. Qed.

Lemma substring_0_prefix (p s : string) (m : nat) :
  String.substring 0 m s = p -> exists t, s = p +:+ t.
Proof.
  revert p s. induction m as [|m IH]; intros p s.
  - destruct s; simpl; intros <-; eauto.
  - destruct s as [|c s]; simpl; intros <-; [by exists ""|].
    destruct (IH _ s eq_refl) as [t Ht]. exists t.
    change (String c s = String c (String.substring 0 m s +:+ t)).
    by f_equal.
Qed.

Lemma js_substring_prefix (p s : string) :
  js_substring (p +:+ s) 0 (String.length p) = p.
Proof.
  unfold js_substring. rewrite length_append. cbv zeta.
  rewrite !Nat.min_0_l, Nat.max_0_l, Nat.sub_0_r, Nat.min_l by lia.
  apply substring_0_append.
Qed.

Lemma js_substring_from_suffix (p s : string) :
  js_substring_from (p +:+ s) (String.length p) = s.
Proof.
  unfold js_substring_from, js_substring. rewrite length_append.
  set (n := String.length p). set (m := String.length s).
  replace (Nat.min n (n + m)) with n by lia.
  replace (Nat.min (n + m) (n + m)) with (n + m)%nat by lia.
  replace (Nat.min n (n + m)) with n by lia.
  replace (Nat.max n (n + m) - n)%nat with m by lia.
  apply substring_skip_append.
Qed.

(** ** Counting executions *)

Lemma executions_emit e w :
  executions (snd (emit e w))
  = (executions w + if invocation e then 1 else 0)%nat.
Proof.
  unfold executions, emit. simpl. rewrite filter_app, length_app.
  f_equal. destruct e; simpl; rewrite ?filter_cons_True, ?filter_cons_False;
    simpl; auto.
Qed.

(** ** What every computation of the file preserves

    The closures of the adapters are made of a registration and of the
    arming of one trigger. *)
Lemma preserved_setImmediate_via `{Page} (P : world -> Prop) :
  (forall arguments, preserved P (addFromSetImmediateArguments arguments)) ->
  (forall e, invocation e = false -> preserved P (emit e)) ->
  forall a arguments, preserved P (setImmediate_via a arguments).
Proof.
  intros P_add P_arm a arguments.
  destruct a; simpl;
    (apply preserved_bind; [apply P_add|]; intros h;
     apply preserved_bind; [by apply P_arm|]; intros _;
     apply preserved_ret).
Qed.

(** Running a task is announcing the call and running its script. *)
Lemma run_unfold `{Page} (t : Task) :
  run t = (emit (invocation_of t) ;; run_script (script_of t)).
Proof. unfold run, invocation_of, script_of. by destruct (handler t). Qed.

Lemma invocation_invocation_of `{Page} (t : Task) :
  invocation (invocation_of t) = true.
Proof. unfold invocation_of. by destruct (handler t). Qed.

Lemma sealed_script_of `{Page} (t : Task) : sealed -> outside (script_of t).
Proof.
  intros [Hbody Heval]. unfold script_of. destruct (handler t); auto.
Qed.

(** On a page that leaves the closure sealed, a property kept by
    scheduling, by deleting an entry and by the invocation events is kept
    by everything the page and the host can make the file do. *)
Section Frame.
Context {page : Page} (P : world -> Prop).
Hypothesis P_schedule :
  forall a arguments, preserved P (setImmediate_via a arguments).
Hypothesis P_delete :
  forall handle, preserved P (delete_tasksByHandle handle).

Lemma preserved_run_script s : outside s -> preserved P (run_script s).
Proof.
  induction s as [|e|arguments k IH|handle k IH|f k IH]; simpl; intros Hs.
  - apply preserved_ret.
  - apply preserved_throw.
  - apply preserved_bind; [apply P_schedule|]. intros h. by apply IH.
  - apply preserved_bind; [apply P_delete|]. intros _. by apply IH.
  - done.
Qed.

Hypothesis P_invoke :
  forall e, invocation e = true -> preserved P (emit e).
Hypothesis page_sealed : sealed.

Lemma preserved_run t : preserved P (run t).
Proof.
  rewrite run_unfold. apply preserved_bind.
  - apply P_invoke, invocation_invocation_of.
  - intros _. by apply preserved_run_script, sealed_script_of.
Qed.

Lemma preserved_runIfPresent handle : preserved P (runIfPresent handle).
Proof.
  intros w Hw. unfold runIfPresent.
  destruct (tasksByHandle (tasks w) !! to_key handle) as [t|];
    [|by destruct (inherited _)].
  revert w Hw. apply preserved_bind; [apply preserved_run|].
  intros _. apply P_delete.
Qed.

Lemma preserved_onGlobalMessage event : preserved P (onGlobalMessage event).
Proof.
  unfold onGlobalMessage.
  destruct (_ && _); [|apply preserved_ret].
  destruct (data event); try apply preserved_ret.
  apply preserved_runIfPresent.
Qed.

Lemma preserved_turn_step w t : P w -> P (turn_step w t).
Proof.
  intros Hw. destruct t; simpl.
  - by apply P_schedule.
  - by apply P_delete.
  - by apply preserved_runIfPresent.
  - by apply preserved_onGlobalMessage.
Qed.

Lemma preserved_play ts w : P w -> P (play ts w).
Proof.
  revert w. induction ts as [|t ts IH]; intros w Hw; simpl; [done|].
  apply IH. by apply preserved_turn_step.
Qed.
End Frame.

(** The same, from the three primitive effects on the state. *)
Section FrameOfPrimitives.
Context {page : Page} (P : world -> Prop).
Hypothesis P_add :
  forall arguments, preserved P (addFromSetImmediateArguments arguments).
Hypothesis P_delete :
  forall handle, preserved P (delete_tasksByHandle handle).
Hypothesis P_arm :
  forall e, invocation e = false -> preserved P (emit e).

Lemma preserved_run_script_prim s : outside s -> preserved P (run_script s).
Proof.
  apply preserved_run_script; [|exact P_delete].
  by apply preserved_setImmediate_via.
Qed.

Hypothesis P_invoke :
  forall e, invocation e = true -> preserved P (emit e).
Hypothesis page_sealed : sealed.

Lemma preserved_play_prim ts w : P w -> P (play ts w).
Proof.
  apply preserved_play; [|exact P_delete|exact P_invoke|exact page_sealed].
  by apply preserved_setImmediate_via.
Qed.
End FrameOfPrimitives.

Section Executions.
Context {page : Page}.

Lemma executions_run_script s w :
  outside s -> executions (snd (run_script s w)) = executions w.
Proof.
  intros Hs.
  apply (preserved_run_script_prim (fun w' => executions w' = executions w));
    [| | |done|done].
  - by intros arguments w' Hw'.
  - by intros handle w' Hw'.
  - intros e He w' Hw'. rewrite executions_emit, He. lia.
Qed.

Lemma executions_run t w :
  sealed -> executions (snd (run t w)) = S (executions w).
Proof.
  intros Hsealed. rewrite run_unfold. unfold bind. simpl.
  rewrite executions_run_script by (by apply sealed_script_of).
  change (executions (snd (emit (invocation_of t) w)) = S (executions w)).
  rewrite executions_emit, invocation_invocation_of. lia.
Qed.

(** A script only adds to the trace. *)
Lemma trace_run_script_extends s w :
  exists rest, trace (snd (run_script s w)) = trace w ++ rest.
Proof.
  revert w. induction s as [|e|arguments k IH|handle k IH|f k IH]; intros w;
    simpl.
  - exists []. by rewrite app_nil_r.
  - exists []. by rewrite app_nil_r.
  - unfold bind, setImmediate.
    destruct (setImmediate_via installed arguments w) as [[h|e] w1] eqn:E.
    + destruct (IH h w1) as [rest Hrest].
      assert (exists e, trace w1 = trace w ++ [e]) as [e He].
      { destruct installed; injection E as _ <-; by eexists. }
      exists (e :: rest). rewrite Hrest, He. by rewrite <- app_assoc.
    + by destruct installed.
  - unfold bind. simpl.
    apply (IH {| tasks := _; trace := trace w |}).
  - destruct (IH (tasks w)
                {| tasks := snd (f (tasks w));
                   trace := trace w ++ fst (f (tasks w)) |})
      as [rest Hrest].
    exists (fst (f (tasks w)) ++ rest). rewrite Hrest. simpl.
    by rewrite app_assoc.
Qed.

(** A script that stays outside only arms triggers: what it adds to the
    trace holds no invocation. *)
Lemma trace_run_script s w :
  outside s ->
  exists rest,
    trace (snd (run_script s w)) = trace w ++ rest
    /\ Forall (fun e => invocation e = false) rest.
Proof.
  intros Hs.
  apply (preserved_run_script_prim
           (fun w' => exists rest, trace w' = trace w ++ rest
                      /\ Forall (fun e => invocation e = false) rest));
    [| | |done|].
  - by intros arguments w' Hw'.
  - by intros handle w' Hw'.
  - intros e He w' (rest & Hrest & Hall). exists (rest ++ [e]). simpl.
    rewrite Hrest, app_assoc. split; [done|].
    apply Forall_app. split; [done|]. by constructor.
  - exists []. by rewrite app_nil_r.
Qed.

(** Running a task puts its call on the trace first; if its script stays
    outside the closure nothing else is invoked. *)
Lemma trace_run t w :
  exists rest,
    trace (snd (run t w)) = trace w ++ invocation_of t :: rest
    /\ (outside (script_of t) ->
        Forall (fun e => invocation e = false) rest).
Proof.
  rewrite run_unfold. unfold bind. simpl.
  set (w0 := {| tasks := tasks w; trace := trace w ++ [invocation_of t] |}).
  destruct (trace_run_script_extends (script_of t) w0) as [rest Hrest].
  exists rest. split.
  - rewrite Hrest. simpl. by rewrite <- app_assoc.
  - intros Hs. destruct (trace_run_script (script_of t) w0 Hs)
      as (rest' & Hrest' & Hall).
    rewrite Hrest in Hrest'. by apply app_inv_head in Hrest' as ->.
Qed.

Lemma runIfPresent_absent handle w :
  tasksByHandle (tasks w) !! to_key handle = None ->
  inherited (to_key handle) = false ->
  runIfPresent handle w = (Ok tt, w).
Proof. intros E Hown. unfold runIfPresent. by rewrite E, Hown. Qed.

(** With no entry under the name nothing runs and nothing changes, also
    when the name is an inherited one and the call throws. *)
Lemma runIfPresent_absent_state handle w :
  tasksByHandle (tasks w) !! to_key handle = None ->
  snd (runIfPresent handle w) = w.
Proof.
  intros E. unfold runIfPresent. rewrite E. by destruct (inherited _).
Qed.

Lemma runIfPresent_present handle w t :
  tasksByHandle (tasks w) !! to_key handle = Some t ->
  runIfPresent handle w = (run t ;; delete_tasksByHandle handle) w.
Proof. intros E. unfold runIfPresent. by rewrite E. Qed.



Lemma executions_runIfPresent handle w :
  sealed ->
  executions (snd (runIfPresent handle w))
  = match tasksByHandle (tasks w) !! to_key handle with
    | Some _ => S (executions w)
    | None => executions w
    end.
Proof.
  intros Hsealed. unfold runIfPresent.
  destruct (tasksByHandle (tasks w) !! to_key handle) as [t|];
    [|by destruct (inherited _)].
  unfold bind. pose proof (executions_run t w Hsealed) as Hrun.
  by destruct (run t w) as [[[]|e] w'].
Qed.

End Executions.

(** ** At most once *)

(** C1, where the code fails it.  [runIfPresent] deletes the entry after
    [task.run()] has returned and catches nothing.  A task whose callback
    throws is therefore still pending after the first call, and the second
    call executes it again: two calls, two executions, nothing removed.
    (A name inherited from [Object.prototype] fails the claim in another
    way: no task runs, but neither call is a no-operation, both throw.) *)
Theorem runIfPresent_twice_runs_a_throwing_task_twice :
  let page := demo_page SetTimeoutAdapter in
  let w := snd (setImmediate [VFun (UserFn 1)] fresh) in
  let w1 := snd (runIfPresent (VNum 1) w) in
  let w2 := snd (runIfPresent (VNum 1) w1) in
  (fst (runIfPresent (VNum 1) w) = Thrown (VStr "boom")
   /\ fst (runIfPresent (VNum 1) w1) = Thrown (VStr "boom")
   /\ executions w = 0%nat
   /\ executions w2 = 2%nat
   /\ play [Fire 1; Fire 1] w = w2
   /\ tasksByHandle (tasks w2) !! to_key (VNum 1)
      = Some {| handler := VFun (UserFn 1); args := [] |})
  /\ runIfPresent (VStr "constructor") w = (Thrown TypeError, w).
Proof. by vm_compute. Qed.

(** ** A callback that throws *)

Lemma runIfPresent_throws `{Page} (handle : value) (w w' : world)
    (task : Task) (e : value) :
  tasksByHandle (tasks w) !! to_key handle = Some task ->
  run task w = (Thrown e, w') ->
  runIfPresent handle w = (Thrown e, w').
Proof.
  intros Htask Hrun. rewrite (runIfPresent_present _ _ _ Htask).
  by apply bind_Thrown.
Qed.

(** C2, where the code fails it.  A pending task whose callback throws is
    still in the registry after [runIfPresent]: the exception leaves
    before [delete tasksByHandle[handle]] is reached, although the same
    function deletes the entry when the callback returns.  The next
    [runIfPresent] on the handle runs the task again. *)
Theorem runIfPresent_throwing_callback_not_removed :
  let page := demo_page SetTimeoutAdapter in
  let w := snd (setImmediate [VFun (UserFn 1)] fresh) in
  let w' := snd (runIfPresent (VNum 1) w) in
  tasksByHandle (tasks w) !! to_key (VNum 1)
    = Some {| handler := VFun (UserFn 1); args := [] |}
  /\ fst (runIfPresent (VNum 1) w) = Thrown (VStr "boom")
  /\ tasksByHandle (tasks w') !! to_key (VNum 1)
     = Some {| handler := VFun (UserFn 1); args := [] |}
  /\ trace (snd (runIfPresent (VNum 1) w'))
     = [TimeoutSet 1 0; Applied (UserFn 1) VUndefined [];
        Applied (UserFn 1) VUndefined []].
Proof. by vm_compute. Qed.

(** ** Pages that leave the closure sealed *)

Lemma demo_page_sealed (a : adapter) : @sealed (demo_page a).
Proof.
  split; [|done]. intros f arguments. simpl. unfold demo_body.
  repeat case_match; by simpl.
Qed.

Lemma calm_page_sealed (a : adapter) : @sealed (calm_page a).
Proof.
  split; [|done]. intros f arguments. simpl. unfold calm_body.
  repeat case_match; by simpl.
Qed.

(** ** Handles *)

Section Handles.
Context {page : Page}.

Lemma to_key_VNum_inj h h' : to_key (VNum h) = to_key (VNum h') -> h = h'.
Proof. apply pretty_Z_inj. Qed.

(** Each of the three closures registers, arms one trigger and returns
    the handle the registry gave. *)
Lemma setImmediate_via_spec a arguments w :
  exists e,
    invocation e = false
    /\ setImmediate_via a arguments w
       = (Ok (nextHandle (tasks w)),
          {| tasks := tasks (snd (addFromSetImmediateArguments arguments w));
             trace := trace w ++ [e] |}).
Proof. destruct a; eexists; (split; [|reflexivity]); done. Qed.



Lemma issued_below_fresh : issued_below fresh.
Proof.
  split; [done|]. intros key task Hkey. simpl in Hkey.
  by rewrite lookup_empty in Hkey.
Qed.

Lemma issued_below_preserved :
  (forall arguments,
      preserved issued_below (addFromSetImmediateArguments arguments))
  /\ (forall handle, preserved issued_below (delete_tasksByHandle handle))
  /\ (forall e, preserved issued_below (emit e)).
Proof.
  split; [|split].
  - intros arguments w' [Hpos Hw']. split; [simpl; lia|].
    intros key task. simpl. rewrite lookup_insert. case_decide as Hkey.
    + intros _. exists (nextHandle (tasks w')). split; [done|lia].
    + intros Hold. destruct (Hw' key task Hold) as (h & -> & Hh).
      exists h. split; [done|lia].
  - intros handle w' [Hpos Hw']. split; [done|].
    intros key task. simpl. rewrite lookup_delete. case_decide; [done|].
    apply Hw'.
  - by intros e w' Hw'.
Qed.

Lemma issued_below_play ts w :
  sealed -> issued_below w -> issued_below (play ts w).
Proof.
  intros Hsealed. destruct issued_below_preserved as (Hadd & Hdel & Hemit).
  apply (preserved_play_prim issued_below); auto.
Qed.

(** A numeral at or above the counter is the key of no entry. *)
Lemma issued_below_not_yet w h :
  issued_below w -> nextHandle (tasks w) <= h ->
  tasksByHandle (tasks w) !! to_key (VNum h) = None.
Proof.
  intros [_ Hw] Hh.
  destruct (tasksByHandle (tasks w) !! to_key (VNum h)) as [task|] eqn:E;
    [|done].
  destruct (Hw _ _ E) as (h' & Hkey & Hh').
  apply to_key_VNum_inj in Hkey. lia.
Qed.



End Handles.






(** Three calls give 1, 2, 3, whichever adapter is installed; a callback
    that schedules takes the next handle like any other caller. *)
Example three_handles :
  fst (@schedule_all (demo_page PostMessageAdapter)
         [[VFun (UserFn 0)]; [VStr "f()"]; []] fresh)
  = Ok [1; 2; 3].
Proof. by vm_compute. Qed.

Example nested_schedule_takes_next_handle :
  let page := demo_page SetTimeoutAdapter in
  trace (play [Schedule [VFun (UserFn 2); VStr "x"]; Fire 1;
               Schedule [VFun (UserFn 0)]] fresh)
  = [TimeoutSet 1 0; Applied (UserFn 2) VUndefined [VStr "x"];
     TimeoutSet 2 0; TimeoutSet 3 0].
Proof. by vm_compute. Qed.

(** ** Cancelling *)

(** A name that is not the numeral of an issued handle is the key of no
    entry. *)
Lemma unissued_key_absent `{Page} (w : world) (handle : value) :
  issued_below w ->
  (forall h, 1 <= h < nextHandle (tasks w) ->
             to_key handle <> to_key (VNum h)) ->
  tasksByHandle (tasks w) !! to_key handle = None.
Proof.
  intros [_ Hkeys] Hnot.
  destruct (tasksByHandle (tasks w) !! to_key handle) as [task|] eqn:E;
    [|done].
  destruct (Hkeys _ _ E) as (h & Hkey & Hh). by destruct (Hnot h Hh).
Qed.

Lemma delete_tasksByHandle_noop `{Page} (handle : value) (w : world) :
  tasksByHandle (tasks w) !! to_key handle = None ->
  delete_tasksByHandle handle w = (Ok tt, w).
Proof.
  destruct w as [[n m] tr]. intros Habsent. unfold delete_tasksByHandle.
  simpl in *. by rewrite delete_id.
Qed.




(** ** The listener's test *)

(** [isStringAndStartsWith] holds of the strings that begin with the
    putative start, and of nothing else. *)
Lemma isStringAndStartsWith_spec `{Page} (v : value) (p : string) :
  isStringAndStartsWith v p = true <-> exists t, v = VStr (p +:+ t).
Proof.
  split.
  - destruct v as [| | | |s|]; simpl; try done.
    intros Heq. apply String.eqb_eq in Heq. unfold js_substring in Heq.
    apply substring_0_prefix in Heq as [t ->]. by exists t.
  - intros [t ->]. simpl. rewrite js_substring_prefix. apply String.eqb_refl.
Qed.

(** ** What a run of a pending task adds to the trace *)

Lemma trace_runIfPresent `{Page} handle w task :
  tasksByHandle (tasks w) !! to_key handle = Some task ->
  exists rest,
    trace (snd (runIfPresent handle w)) = trace w ++ invocation_of task :: rest
    /\ (outside (script_of task) ->
        Forall (fun e => invocation e = false) rest).
Proof.
  intros Htask. rewrite (runIfPresent_present _ _ _ Htask). unfold bind.
  destruct (trace_run task w) as (rest & Hrest & Hall).
  exists rest. by destruct (run task w) as [[[]|e] w'].
Qed.

(** ** Arguments *)




(** On a host with only timers: [setImmediate(fn)] returns 1, and when the
    timer fires [fn] has been called once, with no arguments. *)
Example scenario_timer_only :
  let page := demo_page SetTimeoutAdapter in
  fst (setImmediate [VFun (UserFn 0)] fresh) = Ok 1
  /\ trace (play [Schedule [VFun (UserFn 0)]; Fire 1] fresh)
     = [TimeoutSet 1 0; Applied (UserFn 0) VUndefined []].
Proof. by vm_compute. Qed.

(** [setImmediate(fn, "x")] then [clearImmediate(1)] at once: when the
    timer fires, [fn] is not called. *)
Example scenario_cancel_at_once :
  let page := demo_page SetTimeoutAdapter in
  trace (play [Schedule [VFun (UserFn 0); VStr "x"]; Cancel (VNum 1); Fire 1]
           fresh)
  = [TimeoutSet 1 0].
Proof. by vm_compute. Qed.

(** ** The message listener *)

Lemma onGlobalMessage_rejects `{Page} (event : message_event) (w : world) :
  source event <> ThisGlobal
  \/ ~ (exists handle, data event = VStr (MESSAGE_PREFIX +:+ handle)) ->
  onGlobalMessage event w = (Ok tt, w).
Proof.
  intros Hbad. unfold onGlobalMessage.
  destruct (bool_decide (source event = ThisGlobal)) eqn:Hsrc; [|done].
  destruct (isStringAndStartsWith (data event) MESSAGE_PREFIX) eqn:Hpre;
    [|done].
  apply bool_decide_eq_true in Hsrc.
  apply isStringAndStartsWith_spec in Hpre. tauto.
Qed.

Lemma onGlobalMessage_accepts `{Page} (event : message_event) (w : world)
    (handle : string) :
  source event = ThisGlobal ->
  data event = VStr (MESSAGE_PREFIX +:+ handle) ->
  onGlobalMessage event w = runIfPresent (VStr handle) w.
Proof.
  intros Hsrc Hdata. unfold onGlobalMessage.
  rewrite bool_decide_eq_true_2 by done.
  replace (isStringAndStartsWith (data event) MESSAGE_PREFIX) with true
    by (symmetry; apply isStringAndStartsWith_spec; eauto).
  rewrite Hdata. simpl. by rewrite js_substring_from_suffix.
Qed.

(** C7.  A message event whose source is not this global object, or whose
    data is not a string beginning with [MESSAGE_PREFIX], makes the
    listener return at once: nothing is thrown, no task runs, the state
    is unchanged.  A message from this global object whose data is the
    prefix followed by a handle makes the listener call [runIfPresent] on
    that handle, and these are the only events that reach
    [runIfPresent]. *)
Theorem onGlobalMessage_filters `{Page} (event : message_event) (w : world) :
  (source event <> ThisGlobal
   \/ ~ (exists handle, data event = VStr (MESSAGE_PREFIX +:+ handle)) ->
   onGlobalMessage event w = (Ok tt, w))
  /\ (forall handle,
         source event = ThisGlobal ->
         data event = VStr (MESSAGE_PREFIX +:+ handle) ->
         onGlobalMessage event w = runIfPresent (VStr handle) w)
  /\ (onGlobalMessage event w <> (Ok tt, w) ->
      source event = ThisGlobal
      /\ exists handle, data event = VStr (MESSAGE_PREFIX +:+ handle)).
Proof.
  split; [apply onGlobalMessage_rejects|].
  split; [intros handle; apply onGlobalMessage_accepts|].
  intros Hran.
  destruct (decide (source event = ThisGlobal)) as [Hsrc|Hsrc];
    [|by destruct Hran; apply onGlobalMessage_rejects; left].
  split; [done|].
  destruct (isStringAndStartsWith (data event) MESSAGE_PREFIX) eqn:Hpre.
  - by apply isStringAndStartsWith_spec.
  - destruct Hran. apply onGlobalMessage_rejects. right. intros Hex.
    apply isStringAndStartsWith_spec in Hex. congruence.
Qed.

Lemma onGlobalMessage_filters_witness :
  let page := demo_page PostMessageAdapter in
  let w := snd (setImmediate [VFun (UserFn 0)] fresh) in
  onGlobalMessage {| source := OtherWindow 7;
                     data := VStr "com.bn.NobleJS.setImmediate0.51" |} w
  = (Ok tt, w)
  /\ onGlobalMessage {| source := ThisGlobal;
                        data := VStr "com.bn.NobleJS.setImmediate0.51" |} w
     = runIfPresent (VStr "1") w.
Proof.
  intros page w. split.
  - apply (@onGlobalMessage_filters page). left. by vm_compute.
  - apply (@onGlobalMessage_filters page
             {| source := ThisGlobal;
                data := VStr "com.bn.NobleJS.setImmediate0.51" |});
      by vm_compute.
Defined.

(** ** The payload of the postMessage adapter *)




(** ** The host *)

Lemma read_assign (t : target) (p q : string) (v : value) (g : Host) :
  read t (assign t p v g) q = if decide (p = q) then v else read t g q.
Proof.
  destruct t; unfold read, get, assign; simpl; rewrite lookup_insert;
    by case_decide.
Qed.

Lemma get_assign_ne (t : target) (p q : string) (v : value) (g : Host) :
  p <> q -> get (assign t p v g) q = get g q.
Proof.
  intros Hne. destruct t; unfold get, assign; simpl;
    by rewrite lookup_insert_ne.
Qed.

(** The probe answers yes exactly on a host that has [postMessage], is
    not a worker, and delivers after the call has returned. *)
Lemma canUsePostMessage_answer (g : Host) :
  fst (canUsePostMessage g)
  = truthy (get g "postMessage")
    && negb (truthy (get g "importScripts"))
    && bool_decide (postMessage_delivery g = Asynchronous).
Proof.
  unfold canUsePostMessage.
  destruct (truthy (get g "postMessage")); [|done].
  destruct (truthy (get g "importScripts")); [done|]. simpl.
  unfold global_postMessage. simpl.
  destruct (postMessage_delivery g); simpl; [|done].
  rewrite bool_decide_eq_true_2; [done|].
  unfold get. simpl. rewrite lookup_insert_eq. by apply list_elem_of_singleton.
Qed.

(** The probe leaves every property of the global object, read as the
    file reads it, as it found it; and the prototype and the registered
    listeners too. *)
Lemma canUsePostMessage_frame (g : Host) :
  (forall p, get (snd (canUsePostMessage g)) p = get g p)
  /\ prototype (snd (canUsePostMessage g)) = prototype g
  /\ getPrototypeOf_is_function (snd (canUsePostMessage g))
     = getPrototypeOf_is_function g
  /\ listeners (snd (canUsePostMessage g)) = listeners g.
Proof.
  unfold canUsePostMessage.
  destruct (negb (truthy (get g "postMessage"))
            || truthy (get g "importScripts")); [done|].
  unfold global_postMessage. simpl.
  destruct (postMessage_delivery g); simpl; (split; [|done]);
    intros p; unfold get; simpl; rewrite insert_insert_eq, lookup_insert;
    case_decide as Hp; try done; subst p; by destruct (own g !! "onmessage").
Qed.


(** [installPostMessageImplementation] returns when the listener can be
    registered, and throws having done nothing when it cannot. *)
Lemma installPostMessageImplementation_outcome (t : target) (g : Host) :
  (can_listen g = true
   /\ fst (installPostMessageImplementation t g) = Ok tt
   /\ (forall p,
          read t (snd (installPostMessageImplementation t g)) p
          = if decide ("setImmediate" = p)
            then VFun (SetImmediateVia PostMessageAdapter)
            else read t g p))
  \/ (can_listen g = false
      /\ installPostMessageImplementation t g = (Thrown TypeError, g)).
Proof.
  unfold installPostMessageImplementation, can_listen.
  destruct (truthy (get g "addEventListener"));
    [|destruct (callable (get g "attachEvent"))]; simpl;
    [left|left|by right]; (split; [done|]); (split; [done|]);
    intros p; by rewrite read_assign.
Qed.

(** How the install block ends: it throws on one kind of host only, where
    the postMessage installer is chosen and cannot register its
    listener. *)
Lemma install_block_outcome (g : Host) :
  fst (install_block g)
  = if negb (truthy (get g "setImmediate"))
       && negb (hasMicrosoftImplementation g)
       && negb (canUseMessageChannel g)
       && fst (canUsePostMessage g)
       && negb (can_listen g)
    then Thrown TypeError
    else Ok tt.
Proof.
  unfold install_block.
  destruct (truthy (get g "setImmediate")); [done|]. simpl.
  destruct (hasMicrosoftImplementation g); [done|]. simpl.
  destruct (canUseMessageChannel g); [done|]. simpl.
  pose proof (canUsePostMessage_frame g) as [Hget _].
  destruct (canUsePostMessage g) as [usable g']. simpl in *.
  destruct usable; [|done]. simpl.
  destruct (installPostMessageImplementation_outcome (attachTo g) g')
    as [(Hcan & Hfst & _)|(Hcan & Heq)].
  - assert (can_listen g = true) as ->
        by (unfold can_listen in *; by rewrite <- !Hget).
    by destruct (installPostMessageImplementation (attachTo g) g')
      as [[[]|e] g1].
  - assert (can_listen g = false) as ->
        by (unfold can_listen in *; by rewrite <- !Hget).
    by rewrite Heq.
Qed.


(** What the install block leaves on the attach target when the guard
    lets it in and it runs to its end. *)
Lemma install_attached (g : Host) :
  truthy (get g "setImmediate") = false ->
  fst (install_block g) = Ok tt ->
  read (attachTo g) (install g) "setImmediate"
  = (if hasMicrosoftImplementation g then get g "msSetImmediate"
     else if canUseMessageChannel g
          then VFun (SetImmediateVia MessageChannelAdapter)
          else if fst (canUsePostMessage g)
               then VFun (SetImmediateVia PostMessageAdapter)
               else VFun (SetImmediateVia SetTimeoutAdapter))
  /\ read (attachTo g) (install g) "clearImmediate"
     = (if hasMicrosoftImplementation g then get g "msClearImmediate"
        else VFun TasksRemove).
Proof.
  intros Hguard. unfold install, install_block. rewrite Hguard. simpl.
  destruct (hasMicrosoftImplementation g).
  - intros _. unfold aliasMicrosoftImplementation. simpl.
    rewrite !read_assign.
    repeat case_decide; try done. by rewrite get_assign_ne.
  - destruct (canUseMessageChannel g).
    + intros _. unfold installMessageChannelImplementation. simpl.
      rewrite !read_assign. by repeat case_decide.
    + destruct (canUsePostMessage g) as [usable g']. simpl.
      destruct usable.
      * destruct (installPostMessageImplementation_outcome (attachTo g) g')
          as [(_ & Hfst & Hread)|(_ & ->)]; [|done].
        destruct (installPostMessageImplementation (attachTo g) g')
          as [[[]|e] g1]; [|done].
        intros _. simpl in *. rewrite !read_assign, !Hread.
        by repeat case_decide.
      * intros _. unfold installSetTimeoutImplementation. simpl.
        rewrite !read_assign. by repeat case_decide.
Qed.

(** ** The install block *)



(** C8, as the code has it.  The install block is guarded by
    [global.setImmediate] alone.  When that is truthy the block does
    nothing and the host is exactly as before; this is so in particular
    when the host has both [setImmediate] and [clearImmediate], but the
    guard does not look at [clearImmediate].  When it is not truthy and
    the block runs to its end, it has attached a schedule and a cancel
    function to the attach target: either the host's prefixed pair,
    re-exported under the two names, or the [setImmediate] closure of
    exactly one adapter together with the registry's [remove]. *)
Theorem install_guarded_by_setImmediate (g : Host) :
  (truthy (get g "setImmediate") = true -> install_block g = (Ok tt, g))
  /\ (truthy (get g "setImmediate") = true -> install g = g)
  /\ (has_native_pair g = true -> install g = g)
  /\ (truthy (get g "setImmediate") = false ->
      fst (install_block g) = Ok tt ->
      let schedule := read (attachTo g) (install g) "setImmediate" in
      let cancel := read (attachTo g) (install g) "clearImmediate" in
      (hasMicrosoftImplementation g = true
       /\ schedule = get g "msSetImmediate"
       /\ cancel = get g "msClearImmediate")
      \/ (hasMicrosoftImplementation g = false
          /\ cancel = VFun TasksRemove
          /\ exists a, schedule = VFun (SetImmediateVia a)
                       /\ forall a', schedule = VFun (SetImmediateVia a') ->
                                     a' = a)).
Proof.
  assert (truthy (get g "setImmediate") = true -> install_block g = (Ok tt, g))
    as Hskip.
  { intros Hguard. unfold install_block. by rewrite Hguard. }
  split; [exact Hskip|]. split; [|split].
  - intros Hguard. unfold install. by rewrite Hskip.
  - unfold has_native_pair. intros Hpair. unfold install. rewrite Hskip; [done|].
    by apply andb_true_iff in Hpair as [-> _].
  - intros Hguard Hend schedule cancel.
    destruct (install_attached g Hguard Hend) as [Hs Hc].
    fold schedule in Hs. fold cancel in Hc.
    destruct (hasMicrosoftImplementation g); [by left|right].
    split; [done|]. split; [done|]. rewrite Hs.
    destruct (canUseMessageChannel g);
      [|destruct (fst (canUsePostMessage g))];
      eexists; (split; [reflexivity|]); by intros a' [= <-].
Qed.

Lemma install_guarded_by_setImmediate_witness :
  install schedule_only_host = schedule_only_host
  /\ read (attachTo timer_only_host) (install timer_only_host) "clearImmediate"
     = VFun TasksRemove.
Proof.
  split.
  - destruct (install_guarded_by_setImmediate schedule_only_host)
      as (_ & Hskip & _).
    apply Hskip. by vm_compute.
  - destruct (install_guarded_by_setImmediate timer_only_host)
      as (_ & _ & _ & Hattach).
    destruct Hattach as [(Hms & _)|(_ & Hcancel & _)];
      [by vm_compute|by vm_compute|by vm_compute in Hms|exact Hcancel].
Defined.

(** The claim as written fails: a host with [setImmediate] and without
    [clearImmediate] has no native pair, and yet the install block skips
    it: the host is left as it was and no cancel function is attached.
    Reading the native pair as the prefixed one does not help: a host
    with that pair is not skipped, both names are attached. *)
Lemma install_skips_without_native_pair :
  (has_native_pair schedule_only_host = false
   /\ install schedule_only_host = schedule_only_host
   /\ read (attachTo schedule_only_host) (install schedule_only_host)
           "clearImmediate" = VUndefined
   /\ get (install schedule_only_host) "clearImmediate" = VUndefined)
  /\ (hasMicrosoftImplementation ie10_host = true
      /\ install ie10_host <> ie10_host).
Proof.
  split; [by vm_compute|]. split; [by vm_compute|].
  intros Heq.
  apply (f_equal (fun g => read OnPrototype g "setImmediate")) in Heq.
  by vm_compute in Heq.
Qed.

(** C9.  The probe puts back the message listener it found: after
    [canUsePostMessage], [global.onmessage] reads as before, on the path
    that returns early and on the path that posts, with synchronous and
    with asynchronous delivery.  More than that, every property of the
    global object reads as before. *)
Theorem canUsePostMessage_restores_onmessage (g : Host) :
  get (snd (canUsePostMessage g)) "onmessage" = get g "onmessage"
  /\ forall p, get (snd (canUsePostMessage g)) p = get g p.
Proof.
  destruct (canUsePostMessage_frame g) as [Hget _]. split; [apply Hget|done].
Qed.

(** * Further properties of the file *)

(** ** Source text as a handler *)

(** X1.  When the first argument of [setImmediate] is not a function (or
    there is no argument at all), the task is run by [eval] on the string
    form of that argument, with the task itself as [this]: the
    evaluation of that text is the first thing that happens, no function
    is applied before it, and if the text leaves the closure of the
    registry alone nothing else is invoked.  With no argument the text is
    ["undefined"]. *)
Theorem text_handler_is_evaluated `{Page} (a : adapter)
    (arguments : list value) (w : world) :
  (forall f, head arguments <> Some (VFun f)) ->
  let text := default VUndefined (head arguments) in
  let task := {| handler := text; args := tail arguments |} in
  let w1 := snd (setImmediate_via a arguments w) in
  tasksByHandle (tasks w1) !! to_key (VNum (nextHandle (tasks w))) = Some task
  /\ (exists rest,
         trace (snd (runIfPresent (VNum (nextHandle (tasks w))) w1))
         = trace w1 ++ Evaled (to_string text) :: rest
         /\ (outside (eval (to_string text) task) ->
             Forall (fun e => invocation e = false) rest))
  /\ (forall w',
         run task w'
         = (emit (Evaled (to_string text)) ;;
            run_script (eval (to_string text) task)) w')
  /\ (arguments = [] -> to_string text = "undefined").
Proof.
  intros Htext text task w1.
  assert (forall f, text <> VFun f) as Hnot.
  { intros f Hf. subst text. destruct arguments as [|v rest]; [done|].
    simpl in Hf. subst v. by apply (Htext f). }
  assert (invocation_of task = Evaled (to_string text)
          /\ script_of task = eval (to_string text) task) as [Hinv Hscript].
  { unfold invocation_of, script_of. subst task. simpl.
    destruct text; try done. by destruct (Hnot f). }
  assert (tasksByHandle (tasks w1) !! to_key (VNum (nextHandle (tasks w)))
          = Some task) as Hstored.
  { destruct (setImmediate_via_spec a arguments w) as (e & _ & Heq).
    subst w1. rewrite Heq. simpl. apply lookup_insert_eq. }
  split; [exact Hstored|]. split; [|split].
  - destruct (trace_runIfPresent _ _ _ Hstored) as (rest & Hrest & Hall).
    exists rest. rewrite <- Hinv. split; [exact Hrest|].
    by rewrite <- Hscript.
  - intros w'. by rewrite run_unfold, Hinv, Hscript.
  - by intros ->.
Qed.

Lemma text_handler_is_evaluated_witness :
  let page := demo_page SetTimeoutAdapter in
  exists rest,
    trace (snd (runIfPresent (VNum 1)
                  (snd (setImmediate_via SetTimeoutAdapter
                          [VStr "f()"; VNum 4] fresh))))
    = [TimeoutSet 1 0] ++ Evaled "f()" :: rest
    /\ Forall (fun e => invocation e = false) rest.
Proof.
  intros page.
  destruct (@text_handler_is_evaluated page SetTimeoutAdapter
              [VStr "f()"; VNum 4] fresh) as (_ & (rest & Hrest & Hall) & _);
    [by intros f|].
  exists rest. split; [exact Hrest|]. by apply Hall.
Defined.

(** ** Scheduling *)

Lemma setImmediate_via_trigger `{Page} a arguments w :
  setImmediate_via a arguments w
  = (Ok (nextHandle (tasks w)),
     {| tasks := tasks (snd (addFromSetImmediateArguments arguments w));
        trace := trace w ++ [trigger_for a (nextHandle (tasks w))] |}).
Proof. by destruct a. Qed.


Lemma invocation_trigger_for `{Page} a h : invocation (trigger_for a h) = false.
Proof. by destruct a. Qed.

Lemma issued_below_fresh_key `{Page} w :
  issued_below w ->
  tasksByHandle (tasks w) !! to_key (VNum (nextHandle (tasks w))) = None.
Proof. intros Hw. by apply issued_below_not_yet. Qed.

Lemma executions_setImmediate_via `{Page} a arguments w :
  executions (snd (setImmediate_via a arguments w)) = executions w.
Proof.
  rewrite setImmediate_via_trigger. unfold executions. simpl.
  rewrite filter_app, length_app.
  rewrite filter_cons_False, filter_nil;
    [simpl; lia|by rewrite invocation_trigger_for].
Qed.



Lemma fire_trigger_for `{Page} (a : adapter) (h : Z) (w : world) :
  fire (trigger_for a h) w = runIfPresent (VNum h) w.
Proof.
  destruct a; [done| |done]. simpl.
  by rewrite (onGlobalMessage_accepts _ _ (to_string (VNum h))).
Qed.



(** ** The pending tasks of a reachable state *)

Lemma pending_bound `{Page} (w : world) :
  issued_below w -> Z.of_nat (pending w) <= nextHandle (tasks w) - 1.
Proof.
  intros [Hpos Hkeys]. unfold pending.
  rewrite <- (size_dom (D := gset string)).
  set (n := nextHandle (tasks w)) in *.
  set (numerals := (fun h => to_key (VNum h)) <$> seqZ 1 (n - 1)).
  assert (dom (tasksByHandle (tasks w)) ⊆ list_to_set numerals) as Hsub.
  { intros key Hkey. apply elem_of_dom in Hkey as [task Htask].
    destruct (Hkeys _ _ Htask) as (h & -> & Hh).
    apply elem_of_list_to_set, list_elem_of_fmap. exists h. split; [done|].
    apply elem_of_seqZ. lia. }
  apply subseteq_size in Hsub. rewrite size_list_to_set in Hsub.
  - unfold numerals in Hsub. rewrite length_fmap, length_seqZ in Hsub. lia.
  - apply NoDup_fmap_2_strong; [|apply NoDup_seqZ].
    intros h h' _ _. apply to_key_VNum_inj.
Qed.

(** X4.  On a page that leaves the closure sealed, whatever the page and
    the host have done since the file was loaded, the counter is at
    least 1, every pending task sits under the decimal numeral of a
    handle between 1 and the last one issued, and so there are never more
    pending tasks than handles issued. *)
Theorem registry_invariant `{Page} (ts : list turn) :
  sealed ->
  let w := play ts fresh in
  1 <= nextHandle (tasks w)
  /\ (forall key task,
         tasksByHandle (tasks w) !! key = Some task ->
         exists h, key = to_key (VNum h) /\ 1 <= h < nextHandle (tasks w))
  /\ Z.of_nat (pending w) <= nextHandle (tasks w) - 1.
Proof.
  intros Hsealed w.
  pose proof (issued_below_play ts fresh Hsealed issued_below_fresh) as Hw.
  fold w in Hw. split; [apply Hw|]. split; [apply Hw|].
  by apply pending_bound.
Qed.

Lemma registry_invariant_witness :
  let page := demo_page MessageChannelAdapter in
  let w := play [Schedule [VFun (UserFn 2); VStr "x"]; Fire 1;
                 Schedule [VFun (UserFn 1)]; Fire 3; Fire 3] fresh in
  Z.of_nat (pending w) <= nextHandle (tasks w) - 1.
Proof.
  intros page w.
  apply (@registry_invariant page).
  apply (demo_page_sealed MessageChannelAdapter).
Defined.

(** ** Handles that were never issued *)

(** The decimal numeral of an integer is not empty and begins with a
    digit or with the minus sign. *)
Lemma pretty_N_go_head (x : N) (s : string) :
  (exists d t, s = String (pretty_N_char d) t) ->
  exists d t, pretty_N_go x s = String (pretty_N_char d) t.
Proof.
  revert s. induction (N.lt_wf_0 x) as [x _ IH]; intros s Hs.
  assert (x = 0 \/ 0 < x)%N as [->|Hx] by lia.
  - by rewrite pretty_N_go_0.
  - rewrite pretty_N_go_step by done. apply IH; [by apply N.div_lt|eauto].
Qed.

Lemma numeral_head (h : Z) :
  exists c t, pretty h = String c t
              /\ (c = "-"%char \/ exists d, c = pretty_N_char d).
Proof.
  destruct h as [|p|p].
  - exists "0"%char, "". split; [done|]. right. by exists 0%N.
  - unfold pretty, pretty_Z, pretty, pretty_positive, pretty, pretty_N.
    rewrite decide_False by done.
    rewrite pretty_N_go_step by lia.
    destruct (pretty_N_go_head (N.pos p `div` 10)
                (String (pretty_N_char (N.pos p `mod` 10)) ""))
      as (d & t & ->); [eauto|].
    exists (pretty_N_char d), t. eauto.
  - exists "-"%char. eexists. split; [reflexivity|by left].
Qed.

Lemma not_a_numeral (key : string) (h : Z) :
  key ∈ ["undefined"; "null"; "true"; "false"; ""] -> key <> pretty h.
Proof.
  intros Hkey Heq. destruct (numeral_head h) as (c & t & Hhead & Hc).
  rewrite <- Heq in Hhead. rewrite !elem_of_cons, elem_of_nil in Hkey.
  destruct Hkey as [->|[->|[->|[->|[->|[]]]]]]; try discriminate Hhead;
    injection Hhead as <- _;
    (destruct Hc as [Hc|[d Hc]];
     [discriminate Hc
     |unfold pretty_N_char in Hc; repeat case_match; discriminate Hc]).
Qed.

(** X5.  On a page that leaves the closure sealed, in every reachable
    state, a handle whose property name is not the numeral of a handle
    issued so far finds no task: [clearImmediate] returns with the state
    unchanged, and [runIfPresent] runs nothing and changes nothing.  When
    the name is not one that every object inherits, [runIfPresent]
    returns, and so does the listener on a message, even from this global
    object, that carries the prefix followed by such a name; when it is
    an inherited name, [runIfPresent] throws a [TypeError].  This covers
    [undefined] (a call without argument), [null], the booleans, the
    empty string, zero and the negative numbers, and the numbers not
    issued yet. *)
Theorem unissued_handles_do_nothing `{Page} (ts : list turn) (handle : value) :
  sealed ->
  let w := play ts fresh in
  ((forall h, 1 <= h < nextHandle (tasks w) ->
              to_key handle <> to_key (VNum h))
   \/ handle = VUndefined \/ handle = VNull \/ (exists b, handle = VBool b)
   \/ handle = VStr ""
   \/ (exists h, handle = VNum h /\ (h <= 0 \/ nextHandle (tasks w) <= h))) ->
  clearImmediate handle w = (Ok tt, w)
  /\ snd (runIfPresent handle w) = w
  /\ (inherited (to_key handle) = false ->
      runIfPresent handle w = (Ok tt, w)
      /\ forall sender,
           onGlobalMessage
             {| source := sender;
                data := VStr (MESSAGE_PREFIX +:+ to_key handle) |} w
           = (Ok tt, w))
  /\ (inherited (to_key handle) = true ->
      runIfPresent handle w = (Thrown TypeError, w)).
Proof.
  intros Hsealed w Hjunk.
  pose proof (issued_below_play ts fresh Hsealed issued_below_fresh) as Hw.
  fold w in Hw.
  assert (tasksByHandle (tasks w) !! to_key handle = None) as Habsent.
  { apply unissued_key_absent; [done|].
    destruct Hjunk as [Hgen|[->|[->|[[b ->]|[->|(h0 & -> & Hh0)]]]]];
      [done|..]; intros h Hh.
    - apply not_a_numeral. rewrite !elem_of_cons. tauto.
    - apply not_a_numeral. rewrite !elem_of_cons. tauto.
    - apply not_a_numeral. rewrite !elem_of_cons. destruct b; tauto.
    - apply not_a_numeral. rewrite !elem_of_cons. tauto.
    - intros Heq. apply to_key_VNum_inj in Heq. lia. }
  split; [by apply delete_tasksByHandle_noop|].
  split; [by apply runIfPresent_absent_state|]. split.
  - intros Hown. split; [by apply runIfPresent_absent|].
    intros sender. destruct (decide (sender = ThisGlobal)) as [->|Hother].
    + rewrite (onGlobalMessage_accepts _ _ (to_key handle)) by done.
      by apply (runIfPresent_absent (VStr (to_key handle))).
    + apply onGlobalMessage_rejects. by left.
  - intros Hproto. unfold runIfPresent. by rewrite Habsent, Hproto.
Qed.

Lemma unissued_handles_do_nothing_witness :
  let page := demo_page PostMessageAdapter in
  let w := play [Schedule [VFun (UserFn 0)]] fresh in
  clearImmediate VUndefined w = (Ok tt, w)
  /\ runIfPresent (VNum 2) w = (Ok tt, w)
  /\ onGlobalMessage
       {| source := ThisGlobal;
          data := VStr (MESSAGE_PREFIX +:+ to_key (VStr "1x")) |} w
     = (Ok tt, w)
  /\ runIfPresent (VStr "constructor") w = (Thrown TypeError, w).
Proof.
  intros page w.
  pose proof (demo_page_sealed PostMessageAdapter) as Hsealed.
  split; [|split; [|split]].
  - destruct (@unissued_handles_do_nothing page [Schedule [VFun (UserFn 0)]]
                VUndefined Hsealed) as (Hclear & _).
    { right. by left. }
    exact Hclear.
  - destruct (@unissued_handles_do_nothing page [Schedule [VFun (UserFn 0)]]
                (VNum 2) Hsealed) as (_ & _ & Hown & _).
    { do 5 right. exists 2. split; [done|]. right. by vm_compute. }
    apply Hown. by vm_compute.
  - destruct (@unissued_handles_do_nothing page [Schedule [VFun (UserFn 0)]]
                (VStr "1x") Hsealed) as (_ & _ & Hown & _).
    { left. intros h Hh.
      assert (nextHandle (tasks w) = 2) as Hnext by (by vm_compute).
      fold w in Hh. rewrite Hnext in Hh. assert (h = 1) as -> by lia.
      by vm_compute. }
    apply Hown. by vm_compute.
  - destruct (@unissued_handles_do_nothing page [Schedule [VFun (UserFn 0)]]
                (VStr "constructor") Hsealed) as (_ & _ & _ & Hproto).
    { left. intros h Hh.
      assert (nextHandle (tasks w) = 2) as Hnext by (by vm_compute).
      fold w in Hh. rewrite Hnext in Hh. assert (h = 1) as -> by lia.
      by vm_compute. }
    apply Hproto. by vm_compute.
Defined.

(** ** The host delivering the triggers *)

Lemma triggers_emit (e : event) (w : world) :
  triggers (snd (emit e w))
  = triggers w ++ (if invocation e then [] else [e]).
Proof.
  unfold triggers. simpl. rewrite filter_app. f_equal.
  destruct (invocation e) eqn:He.
  - by rewrite filter_cons_False, filter_nil by (by rewrite He).
  - by rewrite filter_cons_True, filter_nil by done.
Qed.

Lemma executions_onGlobalMessage `{Page} event w :
  sealed ->
  (executions (snd (onGlobalMessage event w)) <= S (executions w))%nat.
Proof.
  intros Hsealed.
  unfold onGlobalMessage. destruct (_ && _); [|simpl; lia].
  destruct (data event); try (simpl; lia).
  rewrite executions_runIfPresent by done. case_match; lia.
Qed.

Lemma executions_fire `{Page} e w :
  sealed ->
  (executions (snd (fire e w)) <= S (executions w))%nat.
Proof.
  intros Hsealed. destruct e; simpl; try lia.
  - rewrite executions_runIfPresent by done. case_match; lia.
  - by apply executions_onGlobalMessage.
  - rewrite executions_runIfPresent by done. case_match; lia.
Qed.

Lemma armed_in_order_preserved `{Page} (k : nat) :
  (forall a arguments,
      preserved (armed_in_order k) (setImmediate_via a arguments))
  /\ (forall handle, preserved (armed_in_order k) (delete_tasksByHandle handle))
  /\ (forall e, invocation e = true -> preserved (armed_in_order k) (emit e)).
Proof.
  split; [|split].
  - intros a arguments w (Hpos & Hk & Hlen & Hshape).
    rewrite setImmediate_via_trigger. unfold armed_in_order. simpl.
    change (triggers {| tasks := ?t; trace := trace w ++ [?e] |})
      with (triggers (snd (emit e w))).
    rewrite triggers_emit, invocation_trigger_for, length_app, Hlen. simpl.
    split; [lia|]. split; [lia|]. split; [lia|].
    intros i e Hi. destruct (decide (i < length (triggers w))%nat) as [Hlt|Hge].
    + rewrite lookup_app_l in Hi by done. by apply Hshape.
    + rewrite lookup_app_r in Hi by lia.
      destruct (i - length (triggers w))%nat as [|j] eqn:Hj; [|done].
      injection Hi as <-. exists a. f_equal. lia.
  - by intros handle w Hw.
  - intros e He w (Hpos & Hk & Hlen & Hshape). unfold armed_in_order.
    rewrite triggers_emit, He, app_nil_r. done.
Qed.

Lemma pending_after_preserved `{Page} (k : nat) :
  let P := fun w => Z.of_nat k <= nextHandle (tasks w) - 1
                    /\ pending_after k w in
  (forall a arguments, preserved P (setImmediate_via a arguments))
  /\ (forall handle, preserved P (delete_tasksByHandle handle))
  /\ (forall e, invocation e = true -> preserved P (emit e)).
Proof.
  split; [|split].
  - intros a arguments w [Hk Hkeys]. rewrite setImmediate_via_trigger.
    split; [simpl; lia|]. intros key task. simpl. rewrite lookup_insert.
    case_decide as Hkey.
    + intros _. exists (nextHandle (tasks w)). split; [done|lia].
    + intros Hold. destruct (Hkeys key task Hold) as (h & -> & Hh).
      exists h. split; [done|lia].
  - intros handle w [Hk Hkeys]. split; [done|]. intros key task. simpl.
    rewrite lookup_delete. case_decide; [done|]. apply Hkeys.
  - by intros e _ w Hw.
Qed.

Lemma run_script_returns `{Page} (s : script) (w : world) :
  never_throws s -> fst (run_script s w) = Ok tt.
Proof.
  revert w. induction s as [|e|arguments k IH|handle k IH|f k IH]; intros w Hs;
    simpl in *; [done|done| | |].
  - unfold setImmediate. rewrite (bind_Ok _ _ _ _ _
                                    (setImmediate_via_trigger _ _ _)).
    by apply IH.
  - unfold bind. simpl. by apply IH.
  - by apply IH.
Qed.

Lemma quiet_script_of `{Page} (t : Task) : quiet -> never_throws (script_of t).
Proof.
  intros [Hbody Heval]. unfold script_of. destruct (handler t); auto.
Qed.

Lemma run_returns `{Page} (t : Task) (w : world) :
  quiet -> fst (run t w) = Ok tt.
Proof.
  intros Hquiet. rewrite run_unfold. unfold bind. simpl.
  by apply run_script_returns, quiet_script_of.
Qed.

(** On a page none of whose callbacks throws, the handle has no entry
    after [runIfPresent], whether it found one or not. *)
Lemma runIfPresent_quiet_absent `{Page} (handle : value) (w : world) :
  quiet ->
  tasksByHandle (tasks (snd (runIfPresent handle w))) !! to_key handle = None.
Proof.
  intros Hquiet. unfold runIfPresent.
  destruct (tasksByHandle (tasks w) !! to_key handle) as [t|] eqn:E;
    [|by destruct (inherited _)].
  unfold bind. pose proof (run_returns t w Hquiet) as Hrun.
  destruct (run t w) as [[[]|e] w']; [|done].
  apply lookup_delete_eq.
Qed.

Lemma event_loop_invariant `{Page} (I : world * nat -> Prop) :
  I (fresh, 0%nat) ->
  (forall s st, I s -> I (loop_step s st)) ->
  forall sts, I (event_loop sts).
Proof.
  intros Hstart Hstep sts. unfold event_loop.
  generalize dependent (fresh, 0%nat).
  induction sts as [|st sts IH]; intros s Hs; [done|]. simpl.
  by apply IH, Hstep.
Qed.

Lemma armed_in_order_fresh `{Page} : armed_in_order 0 fresh.
Proof.
  split; [done|]. split; [done|]. split; [done|]. intros i e Hi.
  by destruct i.
Qed.

Lemma armed_in_order_delivery `{Page} (k : nat) (w : world) (e : event) :
  sealed ->
  armed_in_order k w -> triggers w !! k = Some e ->
  exists a, e = trigger_for a (Z.of_nat k + 1)
            /\ armed_in_order (S k) (snd (fire e w)).
Proof.
  intros Hsealed (Hpos & Hk & Hlen & Hshape) He.
  destruct (Hshape _ _ He) as [a ->]. exists a. split; [done|].
  rewrite fire_trigger_for. apply lookup_lt_Some in He.
  destruct (armed_in_order_preserved (S k)) as (Hsched & Hdel & Hinv).
  apply (preserved_runIfPresent (armed_in_order (S k))); try done.
  split; [done|]. split; [lia|done].
Qed.

(** X6.  On a page that leaves the closure sealed, when the host
    delivers each armed trigger once, oldest first, while the page goes
    on scheduling and cancelling, no more callbacks are executed than
    triggers were delivered, and no more triggers are delivered than
    handles were issued; this holds also when callbacks throw.  The
    triggers armed are those of the handles 1, 2, ... in order, one for
    each handle issued. *)
Theorem one_execution_per_delivery `{Page} (sts : list step) :
  sealed ->
  let w := fst (event_loop sts) in
  let k := snd (event_loop sts) in
  (executions w <= k)%nat
  /\ Z.of_nat k <= nextHandle (tasks w) - 1
  /\ length (triggers w) = Z.to_nat (nextHandle (tasks w) - 1)
  /\ forall i e, triggers w !! i = Some e ->
                 exists a, e = trigger_for a (Z.of_nat i + 1).
Proof.
  intros Hsealed.
  cut (armed_in_order (snd (event_loop sts)) (fst (event_loop sts))
       /\ (executions (fst (event_loop sts)) <= snd (event_loop sts))%nat).
  { by intros [(_ & Hk & Hlen & Hshape) Hexec]. }
  apply (event_loop_invariant
           (fun s => armed_in_order (snd s) (fst s)
                     /\ (executions (fst s) <= snd s)%nat)).
  { split; [apply armed_in_order_fresh|done]. }
  intros [w k] st [Hord Hexec]. simpl in *.
  destruct (armed_in_order_preserved k) as (Hsched & Hdel & Hinv).
  destruct st; simpl.
  - split; [by apply Hsched|].
    unfold setImmediate. by rewrite executions_setImmediate_via.
  - split; [by apply Hdel|done].
  - destruct (triggers w !! k) as [e|] eqn:He; [|done]. simpl.
    destruct (armed_in_order_delivery k w e Hsealed Hord He)
      as (a & _ & Hord').
    split; [done|]. pose proof (executions_fire e w Hsealed). lia.
Qed.

Lemma one_execution_per_delivery_witness :
  let page := demo_page SetTimeoutAdapter in
  let s := event_loop [PageSchedules [VFun (UserFn 1)];
                       PageSchedules [VFun (UserFn 2); VStr "x"];
                       HostDelivers; HostDelivers; PageCancels (VNum 1);
                       HostDelivers; HostDelivers] in
  (executions (fst s) <= snd s)%nat.
Proof.
  intros page s.
  apply (@one_execution_per_delivery page).
  apply (demo_page_sealed SetTimeoutAdapter).
Defined.

Lemma calm_page_quiet (a : adapter) : @quiet (calm_page a).
Proof.
  split; [|done]. intros f arguments. simpl. unfold calm_body.
  repeat case_match; by simpl.
Qed.

(** X7.  On a page that leaves the closure sealed and none of whose
    callbacks throws, with the host delivering each armed trigger once,
    oldest first: a task is pending only while the trigger of its handle
    has not been delivered.  Once every armed trigger has been delivered
    the registry is empty: each task has been run or cancelled and
    nothing is left behind. *)
Theorem nothing_left_after_delivery `{Page} (sts : list step) :
  sealed -> quiet ->
  let w := fst (event_loop sts) in
  let k := snd (event_loop sts) in
  (forall key task,
      tasksByHandle (tasks w) !! key = Some task ->
      exists h, key = to_key (VNum h)
                /\ Z.of_nat k < h < nextHandle (tasks w))
  /\ (Z.of_nat k = nextHandle (tasks w) - 1 -> tasksByHandle (tasks w) = ∅).
Proof.
  intros Hsealed Hquiet.
  cut (armed_in_order (snd (event_loop sts)) (fst (event_loop sts))
       /\ pending_after (snd (event_loop sts)) (fst (event_loop sts))).
  { intros [_ Hafter]. split; [exact Hafter|]. intros Hall.
    apply map_empty. intros key.
    destruct (tasksByHandle (tasks (fst (event_loop sts))) !! key)
      as [task|] eqn:E; [|done].
    destruct (Hafter _ _ E) as (h & _ & Hh). lia. }
  apply (event_loop_invariant
           (fun s => armed_in_order (snd s) (fst s)
                     /\ pending_after (snd s) (fst s))).
  { split; [apply armed_in_order_fresh|]. intros key task Hkey.
    simpl in Hkey. by rewrite lookup_empty in Hkey. }
  intros [w k] st [Hord Hafter]. simpl in *.
  destruct (armed_in_order_preserved k) as (Hsched & Hdel & Hinv).
  destruct (pending_after_preserved k) as (Hsched' & Hdel' & Hinv').
  assert (Z.of_nat k <= nextHandle (tasks w) - 1) as Hk by apply Hord.
  destruct st; simpl.
  - split; [by apply Hsched|]. by apply Hsched'.
  - split; [by apply Hdel|]. by apply Hdel'.
  - destruct (triggers w !! k) as [e|] eqn:He; [|done]. simpl.
    destruct (armed_in_order_delivery k w e Hsealed Hord He)
      as (a & -> & Hord').
    split; [done|]. rewrite fire_trigger_for in *.
    assert (pending_after k (snd (runIfPresent (VNum (Z.of_nat k + 1)) w)))
      as Hstill.
    { apply (preserved_runIfPresent
               (fun w => Z.of_nat k <= nextHandle (tasks w) - 1
                         /\ pending_after k w)); by try done. }
    pose proof (runIfPresent_quiet_absent (VNum (Z.of_nat k + 1)) w Hquiet)
      as Hgone.
    intros key task Hkey. destruct (Hstill _ _ Hkey) as (h & -> & Hh).
    exists h. split; [done|].
    destruct (decide (h = Z.of_nat k + 1)) as [->|Hne]; [congruence|lia].
Qed.

Lemma nothing_left_after_delivery_witness :
  let page := calm_page SetTimeoutAdapter in
  tasksByHandle
    (tasks (fst (event_loop
                   [PageSchedules [VFun (UserFn 3); VStr "x"];
                    PageSchedules [VFun (UserFn 2)];
                    PageCancels (VNum 2);
                    HostDelivers; HostDelivers; HostDelivers])))
  = ∅.
Proof.
  intros page.
  apply (@nothing_left_after_delivery page);
    [apply calm_page_sealed|apply calm_page_quiet|].
  by vm_compute.
Defined.

(** ** Executions, pending tasks and handles *)

(** While the task under [key] runs, its execution is counted and its
    entry may still be there: the account is one ahead until the entry
    goes. *)
Lemma account_while_running `{Page} (key : string) (s : script) :
  outside s ->
  preserved
    (fun w =>
       issued_below w
       /\ (exists h, key = to_key (VNum h) /\ h < nextHandle (tasks w))
       /\ Z.of_nat (executions w + pending w)
          <= nextHandle (tasks w) - 1
             + match tasksByHandle (tasks w) !! key with
               | Some _ => 1
               | None => 0
               end)
    (run_script s).
Proof.
  intros Hs.
  destruct issued_below_preserved as (Hadd & Hdel & Hemit).
  apply preserved_run_script_prim; [| | |exact Hs].
  - intros arguments w (Hw & (h & -> & Hh) & Hcount).
    split; [by apply Hadd|]. split; [exists h; simpl; split; [done|lia]|].
    pose proof (issued_below_fresh_key w Hw) as Hfresh.
    unfold executions, pending in *. simpl.
    rewrite map_size_insert_None by done.
    rewrite lookup_insert_ne
      by (intros Heq; apply to_key_VNum_inj in Heq; lia).
    change (pretty h) with (to_key (VNum h)).
    destruct (tasksByHandle (tasks w) !! to_key (VNum h)); lia.
  - intros handle w (Hw & Hkey & Hcount).
    split; [by apply Hdel|]. split; [done|].
    unfold executions, pending in *. simpl.
    rewrite map_size_delete, lookup_delete.
    case_decide as Heq.
    + rewrite Heq in *.
      destruct (tasksByHandle (tasks w) !! key) eqn:E; simpl.
      * assert (size (tasksByHandle (tasks w)) <> 0)%nat
          by (apply map_size_non_empty_iff; intros Hm; rewrite Hm in E;
              by rewrite lookup_empty in E).
        lia.
      * lia.
    + destruct (tasksByHandle (tasks w) !! to_key handle),
        (tasksByHandle (tasks w) !! key); simpl; lia.
  - intros e He w (Hw & Hkey & Hcount). split; [by apply Hemit|].
    split; [done|]. rewrite executions_emit, He. unfold pending in *. simpl.
    by rewrite Nat.add_0_r.
Qed.

Lemma account_runIfPresent `{Page} (handle : value) :
  sealed -> quiet ->
  preserved
    (fun w => issued_below w
              /\ Z.of_nat (executions w + pending w)
                 <= nextHandle (tasks w) - 1)
    (runIfPresent handle).
Proof.
  intros Hsealed Hquiet w [Hw Hcount].
  destruct issued_below_preserved as (Hadd & Hdel & Hemit).
  unfold runIfPresent.
  destruct (tasksByHandle (tasks w) !! to_key handle) as [t|] eqn:Ht;
    [|by destruct (inherited _)].
  destruct Hw as [Hpos Hkeys]. destruct (Hkeys _ _ Ht) as (h & Hkey & Hh).
  rewrite run_unfold.
  set (e := invocation_of t). set (s := script_of t).
  assert (invocation e = true) as He by apply invocation_invocation_of.
  assert (never_throws s) as Hs by (by apply quiet_script_of).
  assert (outside s) as Hout by (by apply sealed_script_of).
  pose proof (account_while_running (to_key handle) s Hout (snd (emit e w)))
    as Hrun.
  match type of Hrun with ?A -> _ => assert A as Hpre end.
  { cbv beta. split; [by apply Hemit|].
    split; [exists h; split; [done|simpl; lia]|].
    rewrite executions_emit, He. unfold pending in *.
    change (tasks (snd (emit e w))) with (tasks w). rewrite Ht. lia. }
  specialize (Hrun Hpre). clear Hpre.
  pose proof (run_script_returns s (snd (emit e w)) Hs) as Hok.
  unfold bind.
  change (emit e w) with (Ok tt, snd (emit e w)). cbv iota beta.
  destruct (run_script s (snd (emit e w))) as [r w1].
  cbn [fst snd] in *. subst r. cbv iota beta.
  destruct Hrun as (Hw1 & _ & Hcount1).
  split; [by apply Hdel|].
  unfold executions, pending in *. simpl. rewrite map_size_delete.
  destruct (tasksByHandle (tasks w1) !! to_key handle) eqn:E; simpl.
  - assert (size (tasksByHandle (tasks w1)) <> 0)%nat
      by (apply map_size_non_empty_iff; intros Hm; rewrite Hm in E;
          by rewrite lookup_empty in E).
    lia.
  - lia.
Qed.

(** X8.  On a page that leaves the closure sealed and none of whose
    callbacks throws, however often and in whatever order triggers fire
    and messages arrive, forged or repeated ones included, the callbacks
    executed and the tasks still pending never add up to more than the
    handles issued. *)
Theorem executions_and_pending_bounded `{Page} (ts : list turn) :
  sealed -> quiet ->
  Z.of_nat (executions (play ts fresh) + pending (play ts fresh))
  <= nextHandle (tasks (play ts fresh)) - 1.
Proof.
  intros Hsealed Hquiet.
  cut (issued_below (play ts fresh)
       /\ Z.of_nat (executions (play ts fresh) + pending (play ts fresh))
          <= nextHandle (tasks (play ts fresh)) - 1); [tauto|].
  assert (issued_below fresh
          /\ Z.of_nat (executions fresh + pending fresh)
             <= nextHandle (tasks fresh) - 1) as Hstart
    by (split; [apply issued_below_fresh|done]).
  revert Hstart. generalize fresh.
  destruct issued_below_preserved as (Hadd & Hdel & Hemit).
  induction ts as [|t ts IH]; intros w Hw; [done|]. simpl. apply IH.
  destruct t as [arguments|handle|handle|ev]; simpl.
  - unfold setImmediate. destruct Hw as [Hw Hcount].
    pose proof (issued_below_fresh_key w Hw) as Hfresh.
    rewrite executions_setImmediate_via, setImmediate_via_trigger.
    split; [by apply (Hadd arguments w)|].
    unfold pending in *. simpl. rewrite map_size_insert_None by done. lia.
  - destruct Hw as [Hw Hcount]. split; [by apply Hdel|].
    unfold executions, pending in *. simpl. rewrite map_size_delete.
    destruct (tasksByHandle (tasks w) !! to_key handle); simpl; lia.
  - by apply (account_runIfPresent (VNum handle) Hsealed Hquiet).
  - unfold onGlobalMessage. destruct (_ && _); [|done].
    destruct (data ev); try done.
    by apply (account_runIfPresent (VStr _) Hsealed Hquiet).
Qed.

Lemma executions_and_pending_bounded_witness :
  let page := calm_page PostMessageAdapter in
  let w := play [Schedule [VFun (UserFn 3)]; Fire 1; Fire 1; Fire 2; Fire 1]
             fresh in
  Z.of_nat (executions w + pending w) <= nextHandle (tasks w) - 1.
Proof.
  intros page.
  apply (@executions_and_pending_bounded page);
    [apply calm_page_sealed|apply calm_page_quiet].
Defined.

(** ** A task that has run and returned *)



(** ** What the install block touches *)

Lemma get_add_listener primitive name listener g p :
  get (add_listener primitive name listener g) p = get g p.
Proof. done. Qed.

Lemma posted_assign t p v g : posted (assign t p v g) = posted g.
Proof. by destruct t. Qed.

Lemma listeners_assign t p v g : listeners (assign t p v g) = listeners g.
Proof. by destruct t. Qed.

Lemma own_assign_prototype p v g : own (assign OnPrototype p v g) = own g.
Proof. done. Qed.

Lemma prototype_assign_global p v g :
  prototype (assign OnGlobal p v g) = prototype g.
Proof. done. Qed.

(** X9.  The install block changes what the page reads under
    [setImmediate] and [clearImmediate] and nothing else: every other
    property of the global object reads after it as before, the probe's
    use of [onmessage] included.  When the block attaches to the global
    object itself, the prototype is left as it was. *)
Theorem install_touches_two_names (g : Host) :
  (forall p, p <> "setImmediate" -> p <> "clearImmediate" ->
             get (install g) p = get g p)
  /\ (attachTo g = OnGlobal -> prototype (install g) = prototype g).
Proof.
  unfold install, install_block.
  destruct (negb (truthy (get g "setImmediate"))); [|done].
  destruct (hasMicrosoftImplementation g).
  { unfold aliasMicrosoftImplementation. simpl. split.
    - intros p Hs Hc. by rewrite !get_assign_ne.
    - by intros ->. }
  destruct (canUseMessageChannel g).
  { unfold installMessageChannelImplementation. simpl. split.
    - intros p Hs Hc. by rewrite !get_assign_ne.
    - by intros ->. }
  destruct (canUsePostMessage_frame g) as (Hget & Hproto & _).
  destruct (canUsePostMessage g) as [usable g']. simpl in *.
  destruct usable.
  - unfold installPostMessageImplementation.
    destruct (truthy (get g' "addEventListener"));
      [|destruct (callable (get g' "attachEvent"))]; simpl;
      (split;
       [intros p Hs Hc; rewrite ?get_assign_ne by done;
        rewrite ?get_add_listener; apply Hget
       |intros Ht; rewrite ?Ht; by rewrite ?prototype_assign_global]).
  - unfold installSetTimeoutImplementation. simpl. split.
    + intros p Hs Hc. rewrite !get_assign_ne by done. apply Hget.
    + by intros ->.
Qed.

Lemma install_touches_two_names_witness :
  get (install (postMessage_host Asynchronous)) "onmessage" = VFun (UserFn 9)
  /\ get (install (postMessage_host Asynchronous)) "postMessage"
     = VFun (HostFn "postMessage").
Proof.
  destruct (install_touches_two_names (postMessage_host Asynchronous))
    as [Hget _].
  split; rewrite Hget; by vm_compute.
Defined.

Lemma install_own_on_prototype (g : Host) (p : string) :
  attachTo g = OnPrototype -> p <> "onmessage" ->
  own (install g) !! p = own g !! p.
Proof.
  intros Ht Hp. unfold install, install_block. rewrite Ht.
  destruct (negb (truthy (get g "setImmediate"))); [|done].
  destruct (hasMicrosoftImplementation g); [done|].
  destruct (canUseMessageChannel g); [done|].
  assert (own (snd (canUsePostMessage g)) !! p = own g !! p) as Hown.
  { unfold canUsePostMessage.
    destruct (negb (truthy (get g "postMessage"))
              || truthy (get g "importScripts")); [done|].
    unfold global_postMessage. simpl.
    destruct (postMessage_delivery g); simpl;
      by rewrite !lookup_insert_ne. }
  destruct (canUsePostMessage g) as [usable g']. simpl in *.
  destruct usable; [|done].
  unfold installPostMessageImplementation.
  by destruct (truthy (get g' "addEventListener"));
    [|destruct (callable (get g' "attachEvent"))].
Qed.

(** X10.  When the install block has run to its end, and unless the
    global object has an own [setImmediate] property in front of the
    prototype the block attaches to, the page finds a [setImmediate]
    afterwards, and running the block a second time changes nothing: no
    second listener, no second probe. *)
Theorem install_once (g : Host) :
  fst (install_block g) = Ok tt ->
  (attachTo g = OnPrototype -> own g !! "setImmediate" = None) ->
  truthy (get (install g) "setImmediate") = true
  /\ install_block (install g) = (Ok tt, install g)
  /\ install (install g) = install g.
Proof.
  intros Hend Hshadow.
  assert (truthy (get (install g) "setImmediate") = true) as Hthere.
  { destruct (truthy (get g "setImmediate")) eqn:Hguard.
    { unfold install, install_block. by rewrite Hguard. }
    destruct (install_attached g Hguard Hend) as [Hset _].
    assert (get (install g) "setImmediate"
            = read (attachTo g) (install g) "setImmediate") as ->.
    { destruct (attachTo g) eqn:Ht; [|done]. unfold get, read.
      by rewrite install_own_on_prototype, Hshadow. }
    rewrite Hset.
    destruct (hasMicrosoftImplementation g) eqn:Hms.
    - unfold hasMicrosoftImplementation in Hms.
      by apply andb_true_iff in Hms as [-> _].
    - by repeat case_match. }
  assert (install_block (install g) = (Ok tt, install g)) as Hagain
    by (unfold install_block at 1; by rewrite Hthere).
  split; [done|]. split; [done|]. unfold install at 1. by rewrite Hagain.
Qed.

Lemma install_once_witness :
  install (install (postMessage_host Asynchronous))
  = install (postMessage_host Asynchronous).
Proof.
  apply (install_once (postMessage_host Asynchronous)); [by vm_compute|].
  intros _. by vm_compute.
Defined.

(** The hypotheses are needed.  Behind an own, empty [setImmediate] the
    function attached to the prototype is not what the page reads, and a
    second run of the block goes through the guard again.  And where the
    block throws, nothing is attached: a second run probes again, leaves
    a second message with the host and throws again. *)
Example install_behind_a_shadow :
  attachTo shadowed_host = OnPrototype
  /\ read OnPrototype (install shadowed_host) "setImmediate"
     = VFun (SetImmediateVia SetTimeoutAdapter)
  /\ get (install shadowed_host) "setImmediate" = VUndefined.
Proof. by vm_compute. Qed.

Example install_without_a_listener_api :
  install_block bare_postMessage_host
  = (Thrown TypeError, snd (canUsePostMessage bare_postMessage_host))
  /\ get (install bare_postMessage_host) "setImmediate" = VUndefined
  /\ get (install bare_postMessage_host) "clearImmediate" = VUndefined
  /\ listeners (install bare_postMessage_host) = []
  /\ posted (install bare_postMessage_host) = [(VStr "", "*")]
  /\ posted (install (install bare_postMessage_host))
     = [(VStr "", "*"); (VStr "", "*")].
Proof. by vm_compute. Qed.

(** The probe leaves one empty message with the host exactly when it
    answers yes. *)
Lemma canUsePostMessage_posted (g : Host) :
  posted (snd (canUsePostMessage g))
  = (if fst (canUsePostMessage g) then posted g ++ [(VStr "", "*")]
     else posted g).
Proof.
  unfold canUsePostMessage.
  destruct (negb (truthy (get g "postMessage"))
            || truthy (get g "importScripts")); [done|].
  unfold global_postMessage. simpl.
  destruct (postMessage_delivery g); simpl; [|done].
  rewrite bool_decide_eq_true_2; [done|].
  unfold get. simpl. rewrite lookup_insert_eq. by apply list_elem_of_singleton.
Qed.

(** X11.  The install block sends the probe's empty message exactly when
    it goes into the postMessage installer, that is on a host without
    [setImmediate], without the prefixed pair and without
    [MessageChannel], which has [postMessage], is not a worker and
    delivers asynchronously.  There it registers the listener
    [onGlobalMessage], through [addEventListener] when the host has it
    and else through [attachEvent] when that can be called; with neither
    it registers nothing and ends with a [TypeError], and that is the
    only way for the block to throw.  In every other case no message is
    left with the host and no listener is registered. *)
Theorem install_side_effects (g : Host) :
  let broadcast :=
    negb (truthy (get g "setImmediate"))
    && negb (hasMicrosoftImplementation g)
    && negb (canUseMessageChannel g)
    && (truthy (get g "postMessage")
        && negb (truthy (get g "importScripts"))
        && bool_decide (postMessage_delivery g = Asynchronous)) in
  posted (install g)
  = (if broadcast then posted g ++ [(VStr "", "*")] else posted g)
  /\ listeners (install g)
     = (if broadcast
        then if truthy (get g "addEventListener")
             then listeners g
                  ++ [("addEventListener", "message", OnGlobalMessage)]
             else if callable (get g "attachEvent")
                  then listeners g
                       ++ [("attachEvent", "onmessage", OnGlobalMessage)]
                  else listeners g
        else listeners g)
  /\ fst (install_block g)
     = (if broadcast && negb (can_listen g) then Thrown TypeError else Ok tt).
Proof.
  cbv zeta. rewrite <- canUsePostMessage_answer.
  split; [|split; [|apply install_block_outcome]];
    unfold install, install_block;
    (destruct (truthy (get g "setImmediate")); [done|]);
    cbn [negb andb];
    (destruct (hasMicrosoftImplementation g);
     [unfold aliasMicrosoftImplementation; simpl;
      by rewrite ?posted_assign, ?listeners_assign|]);
    (destruct (canUseMessageChannel g);
     [unfold installMessageChannelImplementation; simpl;
      by rewrite ?posted_assign, ?listeners_assign|]);
    cbn [negb andb];
    pose proof (canUsePostMessage_frame g) as (Hget & _ & _ & Hlisteners);
    pose proof (canUsePostMessage_posted g) as Hposted;
    pose proof (Hget "addEventListener") as Hadd;
    pose proof (Hget "attachEvent") as Hattach;
    (destruct (canUsePostMessage g) as [usable g']); cbn [fst snd] in *;
    (destruct usable;
     [|unfold installSetTimeoutImplementation; simpl;
       by rewrite ?posted_assign, ?listeners_assign]);
    unfold installPostMessageImplementation; rewrite Hadd, Hattach;
    (destruct (truthy (get g "addEventListener"));
     [|destruct (callable (get g "attachEvent"))]); simpl;
    rewrite ?posted_assign, ?listeners_assign; simpl;
    by rewrite ?Hposted, ?Hlisteners.
Qed.

(** ** The probe's message comes back *)

Lemma append_assoc (p q r : string) : (p +:+ q) +:+ r = p +:+ (q +:+ r).
Proof.
  induction p as [|c p IH]; [done|].
  change (String c ((p +:+ q) +:+ r) = String c (p +:+ (q +:+ r))).
  by rewrite IH.
Qed.

(** X12.  Whatever the random part of the prefix, the listener leaves
    alone every message whose data is not a string beginning with
    ["com.bn.NobleJS.setImmediate"]: it returns without running a task or
    changing the state.  The empty message the probe sent is such a
    message, so its later delivery to the listener does nothing. *)
Theorem foreign_messages_are_ignored `{Page} (event : message_event)
    (w : world) :
  (forall t, data event <> VStr ("com.bn.NobleJS.setImmediate" +:+ t)) ->
  onGlobalMessage event w = (Ok tt, w)
  /\ onGlobalMessage {| source := ThisGlobal; data := VStr "" |} w = (Ok tt, w).
Proof.
  assert (forall ev,
             (forall t, data ev <> VStr ("com.bn.NobleJS.setImmediate" +:+ t)) ->
             onGlobalMessage ev w = (Ok tt, w)) as Hgen.
  { intros ev Hforeign. apply onGlobalMessage_rejects. right.
    intros [handle Hdata]. apply (Hforeign (random +:+ handle)).
    rewrite Hdata. unfold MESSAGE_PREFIX. by rewrite append_assoc. }
  intros Hforeign. split; [by apply Hgen|]. apply Hgen. by intros t.
Qed.

Lemma foreign_messages_are_ignored_witness :
  let page := demo_page PostMessageAdapter in
  let w := play [Schedule [VFun (UserFn 0)]] fresh in
  onGlobalMessage {| source := ThisGlobal; data := VStr "1" |} w = (Ok tt, w).
Proof.
  intros page w.
  apply (@foreign_messages_are_ignored page
           {| source := ThisGlobal; data := VStr "1" |} w).
  by intros t.
Defined.

(** ** The pair the page reads *)

(** X13.  On a host the guard lets in, when the block has run to its end,
    and unless the global object has own [setImmediate] or
    [clearImmediate] properties in front of the prototype the block
    attaches to, what the page afterwards reads as [setImmediate] and
    [clearImmediate] belong together: either the host's prefixed pair, or
    the closure of one adapter with the registry's [remove]; never a
    schedule function of one kind with a cancel function of another. *)
Theorem install_pair_is_read (g : Host) :
  truthy (get g "setImmediate") = false ->
  fst (install_block g) = Ok tt ->
  (attachTo g = OnPrototype ->
   own g !! "setImmediate" = None /\ own g !! "clearImmediate" = None) ->
  (hasMicrosoftImplementation g = true
   /\ get (install g) "setImmediate" = get g "msSetImmediate"
   /\ get (install g) "clearImmediate" = get g "msClearImmediate")
  \/ (hasMicrosoftImplementation g = false
      /\ get (install g) "clearImmediate" = VFun TasksRemove
      /\ exists a, get (install g) "setImmediate" = VFun (SetImmediateVia a)).
Proof.
  intros Hguard Hend Hshadow.
  assert (forall p, p = "setImmediate" \/ p = "clearImmediate" ->
                    get (install g) p = read (attachTo g) (install g) p)
    as Hread.
  { intros p Hp. destruct (attachTo g) eqn:Ht; [|done]. unfold get, read.
    destruct (Hshadow eq_refl) as [Hs Hc].
    rewrite install_own_on_prototype by (by destruct Hp as [->| ->]).
    by destruct Hp as [->| ->]; rewrite ?Hs, ?Hc. }
  destruct (install_attached g Hguard Hend) as [Hset Hclear].
  rewrite !Hread by tauto. rewrite Hset, Hclear.
  destruct (hasMicrosoftImplementation g); [by left|right].
  split; [done|]. split; [done|]. repeat case_match; eauto.
Qed.

Lemma install_pair_is_read_witness :
  get (install modern_host) "setImmediate"
  = VFun (SetImmediateVia MessageChannelAdapter)
  /\ get (install modern_host) "clearImmediate" = VFun TasksRemove.
Proof.
  destruct (install_pair_is_read modern_host)
    as [(Hms & _)|(_ & Hclear & a & Hset)];
    [by vm_compute|by vm_compute|intros _; by vm_compute
    |by vm_compute in Hms|].
  split; [|exact Hclear]. rewrite Hset. by vm_compute in Hset.
Defined.
